(** * Joblyst: a shallow embedding of the matching pipeline

    Sources: [main.py] (normalizer, filters, scorer, dispatch, run loop)
    and [job_history.py] (the history store).

    Python [str] values are modelled as [string] (ASCII); [None] given
    for a text field behaves exactly as [""] in every function modelled
    here ([not x], [if x], [cleanHtml]), so it is represented by [""].
    The scorer computes with Python floats.  It is modelled twice: with
    exact rationals [Q] ([scoreJobHybrid], used by the run loop and for
    the bounds and monotonicity facts, which hold for both), and bit for
    bit in IEEE 754 binary64 ([F64.scoreJobHybrid], built on the Standard
    Library's [SpecFloat]), which is what the exact score formula needs:
    the two can differ where the exact value is an integer. *)

From stdpp Require Import base gmap strings list.
From Stdlib Require Import Ascii String QArith Qround Qminmax ZArith Lia Lqa.
From Stdlib Require Floats.SpecFloat.

Local Open Scope string_scope.

(* ------------------------------------------------------------------ *)
(** ** Python string primitives *)

(** [str.lower] on ASCII: A-Z become a-z, everything else is kept. *)
Definition lower_char (c : ascii) : ascii :=
  let n := nat_of_ascii c in
  if (65 <=? n)%nat && (n <=? 90)%nat then ascii_of_nat (n + 32) else c.

Fixpoint lower (s : string) : string :=
  match s with
  | EmptyString => EmptyString
  | String c r => String (lower_char c) (lower r)
  end.

(** [str.isspace] on ASCII: \t \n \x0b \x0c \r, \x1c-\x1f and space. *)
Definition is_space (c : ascii) : bool :=
  let n := nat_of_ascii c in
  ((9 <=? n)%nat && (n <=? 13)%nat) || ((28 <=? n)%nat && (n <=? 32)%nat).

Fixpoint lstrip (s : string) : string :=
  match s with
  | EmptyString => EmptyString
  | String c r => if is_space c then lstrip r else s
  end.

Fixpoint rstrip (s : string) : string :=
  match s with
  | EmptyString => EmptyString
  | String c r =>
      let r' := rstrip r in
      if is_space c && String.eqb r' EmptyString then EmptyString else String c r'
  end.

(** [str.strip()] *)
Definition strip (s : string) : string := rstrip (lstrip s).

(** [s[:n]] *)
Definition take (n : nat) (s : string) : string := String.substring 0 n s.

(** [sub in s] *)
Fixpoint contains (sub s : string) : bool :=
  String.prefix sub s ||
  match s with
  | EmptyString => false
  | String _ r => contains sub r
  end.

(** [any(p in s for p in ps)] *)
Definition contains_any (ps : list string) (s : string) : bool :=
  existsb (fun p => contains p s) ps.

Fixpoint has_char (c : ascii) (s : string) : bool :=
  match s with
  | EmptyString => false
  | String d r => Ascii.eqb d c || has_char c r
  end.

(** [re.sub(r'<[^>]+>', ' ', s)].  The regex matches at a ['<'] iff the
    next character exists and is not ['>'] and some ['>'] follows; the
    match then ends at the first ['>'].  [sub_tags_go] scans left to right;
    [Some b] means a ['<'] was seen and [b] are the characters read since
    (none of them ['>']).  If the input ends before a ['>'], there was no
    match at that ['<'] and nothing after it can match either, so the
    pending text is emitted as it is. *)
Fixpoint sub_tags_go (pending : option string) (s : string) : string :=
  match s with
  | EmptyString =>
      match pending with
      | None => EmptyString
      | Some b => String "<" b
      end
  | String c r =>
      match pending with
      | None =>
          if Ascii.eqb c "<" then sub_tags_go (Some EmptyString) r
          else String c (sub_tags_go None r)
      | Some b =>
          if Ascii.eqb c ">" then
            (if String.eqb b EmptyString
             then String "<" (String ">" (sub_tags_go None r))
             else String " " (sub_tags_go None r))
          else sub_tags_go (Some (b +:+ String c EmptyString)) r
      end
  end.

Definition sub_tags (s : string) : string := sub_tags_go None s.

(** A position of [s] where [<[^>]+>] matches. *)
Fixpoint has_tag (s : string) : bool :=
  match s with
  | EmptyString => false
  | String c r =>
      (Ascii.eqb c "<" &&
       match r with
       | String d r' => negb (Ascii.eqb d ">") && has_char ">" r'
       | EmptyString => false
       end)
      || has_tag r
  end.

(* ------------------------------------------------------------------ *)
(** ** Normalizer ([cleanHtml], [normalizeJob]) *)

(** [cleanHtml]: [if not text: return ""], then tag removal and strip. *)
Definition cleanHtml (text : string) : string :=
  if String.eqb text EmptyString then EmptyString
  else strip (sub_tags text).

Record job := mkJob {
  title : string;
  company : string;
  location : string;
  description : string;
  applyLink : string;
  email : option string;
  id : string
}.

Definition normalizeJob (title0 company0 location0 description0 applyLink0 : string)
    (email0 : option string) : option job :=
  if String.eqb title0 EmptyString || String.eqb company0 EmptyString then None
  else
    let t := strip (cleanHtml title0) in
    let c := strip (cleanHtml company0) in
    let l := if String.eqb location0 EmptyString then "pakistan"
             else strip (cleanHtml location0) in
    let d := strip (cleanHtml description0) in
    Some {| title := lower t;
            company := c;
            location := lower l;
            description := lower d;
            applyLink := applyLink0;
            email := email0;
            id := take 30 (lower c) +:+ "-" +:+ take 40 (lower t) |}.

(** A text made only of whitespace and [<...>] tags (each tag: ['<'], at
    least one character other than ['>'], then ['>']). *)
Inductive blank_markup : string -> Prop :=
  | blank_nil : blank_markup ""
  | blank_space (c : ascii) (s : string) :
      is_space c = true -> blank_markup s -> blank_markup (String c s)
  | blank_tag (b s : string) :
      b <> "" -> has_char ">" b = false -> blank_markup s ->
      blank_markup (String "<" (b +:+ String ">" s)).

Fixpoint all_space (s : string) : bool :=
  match s with
  | EmptyString => true
  | String c r => is_space c && all_space r
  end.

(** [y] is [x] with some whitespace removed at its two ends only. *)
Definition inner_of (x y : string) : Prop :=
  exists p q, x = p +:+ y +:+ q /\ all_space p = true /\ all_space q = true.

(** Neither the first nor the last character is whitespace. *)
Definition trimmed (s : string) : Prop :=
  (forall ch, String.get 0 s = Some ch -> is_space ch = false) /\
  (forall ch, String.get (String.length s - 1) s = Some ch -> is_space ch = false).

(* ------------------------------------------------------------------ *)
(** ** Filter chain ([roleFilter], [locationFilter], [experienceFilter],
    [skillsExclusionFilter]) *)

Definition myTechStack : list string :=
  ["python"; "javascript"; "typescript"; "react"; "next"; "nextjs";
   "node"; "nodejs"; "nest"; "nestjs";
   "full stack"; "fullstack"; "full-stack";
   "frontend"; "backend"; "web developer";
   "ai"; "ml"; "machine learning"; "artificial intelligence";
   "mern"; "mean"; "mongodb"; "database";
   "fastapi"; "software engineer"].

(** [allowedRoles] and [allowedLocations] are the lower-cased lists of
    [config.json]. *)
Definition roleFilter (allowedRoles : list string) (j : job) : bool :=
  let combined := title j +:+ " " +:+ description j in
  contains_any allowedRoles combined || contains_any myTechStack combined.

Definition locationFilter (allowedLocations : list string) (j : job) : bool :=
  contains_any allowedLocations (location j) || contains "remote" (location j).

Definition rejectPatterns : list string :=
  ["senior"; "sr."; "sr "; "lead"; "principal"; "staff engineer"; "director";
   "5+ year"; "6+ year"; "7+ year"; "8+ year"; "10+ year";
   "5 year"; "6 year"; "7 year"; "8 year";
   "mid-level"; "mid level"; "intermediate"; "experienced";
   "3+ year"; "4+ year"; "3 year"; "4 year"].

Definition freshPatterns : list string :=
  ["fresh"; "junior"; "entry"; "graduate"; "intern"; "trainee";
   "0-1"; "0-2"; "1-2"; "associate"; "entry level"; "entry-level"].

Definition entryLevelTitles : list string := ["developer"; "engineer"; "programmer"].

Definition experienceFilter (j : job) : bool :=
  let combined := title j +:+ " " +:+ description j in
  if contains_any rejectPatterns combined then false
  else if contains_any freshPatterns combined then true
  else if contains_any entryLevelTitles (title j)
          && negb (contains "senior" (title j)) && negb (contains "lead" (title j))
  then true
  else false.

Definition excludedTech : list string :=
  ["flutter"; "swift"; "kotlin"; "ios"; "android";
   "angular"; "vue"; "vue.js";
   ".net"; "c#"; "csharp"; "asp.net";
   "laravel"; "php"; "symfony";
   "ruby"; "rails"; "ruby on rails";
   "golang"; "go developer";
   "salesforce"; "sap"; "oracle";
   "shopify"; "wordpress"; "drupal";
   "unity"; "unreal"; "game dev";
   "devops"; "sre"; "infrastructure"; "network engineer";
   "qa"; "test"; "quality assurance"; "sdet"].

(** [s.count(sub)]: non-overlapping occurrences, for a non-empty [sub]
    (every entry of [excludedTech] is non-empty). *)
Fixpoint count_occ_fuel (fuel : nat) (sub s : string) : nat :=
  match fuel with
  | O => O
  | S f =>
      match s with
      | EmptyString => O
      | String _ r =>
          if String.prefix sub s
          then S (count_occ_fuel f sub (String.substring (String.length sub)
                                          (String.length s) s))
          else count_occ_fuel f sub r
      end
  end.

Definition py_count (sub s : string) : nat := count_occ_fuel (S (String.length s)) sub s.

Definition skillsExclusionFilter (j : job) : bool :=
  let t := lower (title j) in
  let d := lower (description j) in
  let combined := t +:+ " " +:+ d in
  if contains_any excludedTech t then false
  else if existsb (fun tech => (2 <=? py_count tech combined)%nat) excludedTech then false
  else true.

(* ------------------------------------------------------------------ *)
(** ** Scorer ([computeKeywordScore], [scoreJobHybrid]) *)

Definition synonyms : list (string * list string) :=
  [("next.js", ["nextjs"; "next js"; "react framework"]);
   ("nest.js", ["nestjs"; "nest js"]);
   ("react", ["reactjs"; "react.js"]);
   ("node", ["nodejs"; "node.js"]);
   ("mongodb", ["mongo"; "nosql"; "database"]);
   ("typescript", ["ts"; "javascript"]);
   ("python", ["py"]);
   ("fastapi", ["fast api"; "python backend"]);
   ("ai", ["artificial intelligence"; "machine learning"; "ml"]);
   ("full stack", ["fullstack"; "full-stack"; "frontend"; "backend"])].

(** The [for key, syns in synonyms.items()] loop: [0.8] for the first key
    related to the skill whose synonyms occur in the text ([break]). *)
Fixpoint synonym_credit (tbl : list (string * list string)) (skill_lower text : string) : Q :=
  match tbl with
  | [] => 0%Q
  | (key, syns) :: rest =>
      if (contains key skill_lower || contains skill_lower key) && contains_any syns text
      then (4 # 5)%Q
      else synonym_credit rest skill_lower text
  end.

Definition skill_credit (text skill : string) : Q :=
  let skill_lower := lower skill in
  if contains skill_lower text then 1%Q else synonym_credit synonyms skill_lower text.

Definition keyword_matches (text : string) (cvSkills : list string) : Q :=
  fold_left (fun acc s => (acc + skill_credit text s)%Q) cvSkills 0%Q.

Definition computeKeywordScore (j : job) (cvSkills : list string) : Q :=
  let text := lower (title j +:+ " " +:+ description j) in
  let total := List.length cvSkills in
  if (0 <? total)%nat then (keyword_matches text cvSkills / inject_Z (Z.of_nat total))%Q
  else 0%Q.

(** Python [int(x)]: truncation toward zero. *)
Definition py_int (q : Q) : Z :=
  if Qle_bool 0 q then Qfloor q else (- Qfloor (- q))%Z.

Definition freshKeywords : list string :=
  ["fresh"; "junior"; "entry"; "graduate"; "intern"; "trainee"; "associate"].

Definition highPriorityRoles : list string :=
  ["mern"; "mean"; "full stack"; "fullstack"; "full-stack";
   "web developer"; "react"; "next.js"; "nextjs"; "node.js"; "nodejs";
   "javascript developer"; "typescript developer"; "frontend"; "backend"].

Definition freshGradBoost (j : job) : Q :=
  if existsb (fun kw => contains kw (lower (title j)) || contains kw (lower (description j)))
       freshKeywords
  then (15 # 100)%Q else 0%Q.

Definition roleBoost (j : job) : Q :=
  let combined := lower (title j) +:+ " " +:+ lower (description j) in
  if contains_any highPriorityRoles combined then (20 # 100)%Q
  else if contains_any ["software engineer"; "software developer"; "programmer"] combined
  then (10 # 100)%Q
  else if contains_any ["ai engineer"; "ml engineer"; "data science"; "machine learning"] combined
  then (5 # 100)%Q
  else 0%Q.

(** [scoreJobHybrid] in exact arithmetic.  [cosine_raw] is
    [np.dot(cvEmbedding, jobEmbedding) / (norm * norm)], the cosine of the
    profile embedding and the sentence-model embedding of the job text.
    The program's floats are modelled in [F64.scoreJobHybrid] below. *)
Definition scoreJobHybrid (cosine_raw : Q) (j : job) (cvSkills : list string) : Z :=
  let cosineScore := Qmax 0 cosine_raw in
  let keywordScore := computeKeywordScore j cvSkills in
  let baseScore := (cosineScore * (70 # 100) + keywordScore * (30 # 100))%Q in
  let totalScore := py_int ((baseScore + freshGradBoost j + roleBoost j) * 100)%Q in
  Z.min 100 totalScore.

(** The value whose [int(... * 100)] is the score, before the cap. *)
Definition score_value (cosine_raw : Q) (j : job) (cvSkills : list string) : Q :=
  ((Qmax 0 cosine_raw * (70 # 100) + computeKeywordScore j cvSkills * (30 # 100)
    + freshGradBoost j + roleBoost j) * 100)%Q.

(** Python's [round]: to the nearest integer, ties to even. *)
Definition py_round (q : Q) : Z :=
  let f := Qfloor q in
  let frac := (q - inject_Z f)%Q in
  if Qlt_le_dec frac (1 # 2) then f
  else if Qlt_le_dec (1 # 2) frac then (f + 1)%Z
  else if Z.even f then f else (f + 1)%Z.

(** The score as the spec words it:
    [min(100, round((0.70 * semantic + 0.30 * keyword + boosts) * 100))]. *)
Definition score_formula_spec (cosine_raw : Q) (j : job) (cvSkills : list string) : Z :=
  Z.min 100 (py_round (score_value cosine_raw j cvSkills)).

(** *** The scorer in IEEE 754 binary64

    Python floats are binary64 doubles with round-to-nearest-even.  The
    operations are [SpecFloat]'s ([SFadd], [SFmul], [SFdiv]: the exact
    result, correctly rounded). *)
Module F64.
Import SpecFloat.

Definition float := spec_float.
Definition prec : Z := 53.
Definition emax : Z := 1024.

Definition add (x y : float) : float := SFadd prec emax x y.
Definition mul (x y : float) : float := SFmul prec emax x y.
Definition div (x y : float) : float := SFdiv prec emax x y.

(** [float(n)] for an int [n]; exact for [|n| < 2^53]. *)
Definition of_Z (n : Z) : float := binary_normalize prec emax n 0 false.

(** The decimal literal [n/d] of the source (e.g. [0.70] is [lit 70 100]):
    the correctly rounded quotient of two exact doubles is the double
    nearest to [n/d], which is the value Python's parser gives the
    literal. *)
Definition lit (n d : Z) : float := div (of_Z n) (of_Z d).

(** [int(x)] on a float: truncation toward zero; [None] where Python
    raises ([OverflowError] on an infinity, [ValueError] on NaN). *)
Definition py_int (x : float) : option Z :=
  match x with
  | S754_zero _ => Some 0%Z
  | S754_finite s m e =>
      Some (if s then (- Z.shiftl (Zpos m) e)%Z else Z.shiftl (Zpos m) e)
  | S754_infinity _ | S754_nan => None
  end.

(** The exact value of a finite double. *)
Definition to_Q (x : float) : Q :=
  match x with
  | S754_finite s m e =>
      let q := if (0 <=? e)%Z then inject_Z (Zpos m * 2 ^ e)
               else (Zpos m # Pos.pow 2 (Z.to_pos (- e)))%Q in
      if s then (- q)%Q else q
  | _ => 0%Q
  end.

Definition is_finite (x : float) : bool :=
  match x with
  | S754_zero _ | S754_finite _ _ _ => true
  | _ => false
  end.

(** Not negative: neither [-0.0], nor a negative finite double, nor
    [-inf]. *)
Definition not_neg (x : float) : bool :=
  match x with
  | S754_zero true | S754_finite true _ _ | S754_infinity true => false
  | _ => true
  end.

Definition pos_finite (x : float) : bool :=
  match x with
  | S754_finite false _ _ => true
  | _ => false
  end.

(** [max(0, x)]: CPython's [max] replaces the int [0] by [x] only when
    [x > 0], so the result is [0] also for [-0.0] and NaN; the int [0]
    later meets a float and becomes [0.0]. *)
Definition py_max0 (x : float) : float := if SFltb (of_Z 0) x then x else of_Z 0.

(** The synonym loop: whether some related key has a synonym in the text
    ([matches += 0.8] then [break]). *)
Fixpoint synonym_hit (tbl : list (string * list string)) (skill_lower text : string) : bool :=
  match tbl with
  | [] => false
  | (key, syns) :: rest =>
      if (contains key skill_lower || contains skill_lower key) && contains_any syns text
      then true else synonym_hit rest skill_lower text
  end.

(** [matches] starts as the int [0]; [+= 1] keeps it an int and
    [+= 0.8] makes it a float.  An int below 2^53 converts exactly to a
    double, so carrying [matches] as a double from the start gives the
    same values; [int / int] is correctly rounded in Python, as is the
    division of the two exact doubles. *)
Definition keyword_matches (text : string) (cvSkills : list string) : float :=
  fold_left (fun matches skill =>
    let skill_lower := lower skill in
    if contains skill_lower text then add matches (of_Z 1)
    else if synonym_hit synonyms skill_lower text then add matches (lit 8 10)
    else matches) cvSkills (of_Z 0).

Definition computeKeywordScore (j : job) (cvSkills : list string) : float :=
  let text := lower (title j +:+ " " +:+ description j) in
  let total := List.length cvSkills in
  if (0 <? total)%nat then div (keyword_matches text cvSkills) (of_Z (Z.of_nat total))
  else of_Z 0.

Definition freshGradBoost (j : job) : float :=
  if existsb (fun kw => contains kw (lower (title j)) || contains kw (lower (description j)))
       freshKeywords
  then lit 15 100 else of_Z 0.

Definition roleBoost (j : job) : float :=
  let combined := lower (title j) +:+ " " +:+ lower (description j) in
  if contains_any highPriorityRoles combined then lit 20 100
  else if contains_any ["software engineer"; "software developer"; "programmer"] combined
  then lit 10 100
  else if contains_any ["ai engineer"; "ml engineer"; "data science"; "machine learning"] combined
  then lit 5 100
  else of_Z 0.

(** [scoreJobHybrid]: [None] where [int()] raises (an infinite value,
    reachable only with a cosine above about 1e306). *)
Definition scoreJobHybrid (cosine_raw : float) (j : job) (cvSkills : list string) : option Z :=
  let cosineScore := py_max0 cosine_raw in
  let keywordScore := computeKeywordScore j cvSkills in
  let baseScore := add (mul cosineScore (lit 70 100)) (mul keywordScore (lit 30 100)) in
  match py_int (mul (add (add baseScore (freshGradBoost j)) (roleBoost j)) (of_Z 100)) with
  | Some totalScore => Some (Z.min 100 totalScore)
  | None => None
  end.

End F64.

(* ------------------------------------------------------------------ *)
(** ** History store ([JobHistory]) and the run ([sendToDiscord],
    [runJoblyst]) *)

(** [timestamp > cutoff_timestamp] on the ISO-8601 strings: Python
    compares [str] by code points, i.e. [String.compare] on ASCII. *)
Definition ts_gt (t c : string) : bool :=
  match String.compare t c with Gt => true | _ => false end.

Definition ts_lt (t c : string) : bool :=
  match String.compare t c with Lt => true | _ => false end.

(** Observable effects, in order: a [_save_history] writing a snapshot of
    the history dict, a call of the scorer (which runs the sentence
    model on the job), and a [requests.post] to the webhook together with
    its outcome ([None] when it raised). *)
Inductive event :=
  | EvSave (snapshot : gmap string string)
  | EvScore (j : job)
  | EvPost (j : job) (score : Z) (outcome : option Z).

(** [hist] is [self.history] in memory, [disk] the content of the history
    file, [ticks] the number of [datetime.now()] readings so far. *)
Record world := mkWorld {
  hist : gmap string string;
  disk : gmap string string;
  ticks : nat;
  trace : list event
}.

Section Run.

(** [clock n]: [datetime.now().isoformat()] at the n-th reading. *)
Variable clock : nat -> string.
(** Whether writing the history file succeeds (failures are logged and
    swallowed by [_save_history]).  A failed write is modelled as leaving
    the file as it was; in the program [open(..., 'w')] truncates it
    first, so a failure can also leave it empty or partial.  Where a fact
    below states [disk] in the [save_ok = false] branch, that branch is
    about this model only. *)
Variable save_ok : bool.
(** Outcome of [requests.post] for a payload built from a job and score. *)
Variable post : job -> Z -> option Z.
(** The cosine of the profile embedding and the job embedding. *)
Variable cosine_of : job -> Q.
(** Configuration and profile read at start-up. *)
Variable allowedRoles allowedLocations cvSkills : list string.
Variable minScore : Z.

Definition _save_history (w : world) : world :=
  {| hist := hist w;
     disk := if save_ok then hist w else disk w;
     ticks := ticks w;
     trace := trace w ++ [EvSave (hist w)] |}.

Definition is_sent (job_id : string) (w : world) : bool :=
  match hist w !! job_id with Some _ => true | None => false end.

Definition mark_as_sent (job_id : string) (w : world) : world :=
  _save_history {| hist := <[job_id := clock (ticks w)]> (hist w);
                   disk := disk w;
                   ticks := S (ticks w);
                   trace := trace w |}.

(** [cleanup_old_entries]; [cutoff_timestamp] is
    [(datetime.now() - timedelta(days=self.retention_days)).isoformat()]. *)
Definition cleanup_old_entries (cutoff_timestamp : string) (w : world) : nat * world :=
  let initial_count := size (hist w) in
  let h' := filter (fun kv : string * string => ts_gt kv.2 cutoff_timestamp = true) (hist w) in
  let w' := {| hist := h'; disk := disk w; ticks := ticks w; trace := trace w |} in
  let removed_count := (initial_count - size h')%nat in
  if (0 <? removed_count)%nat then (removed_count, _save_history w')
  else (removed_count, w').

Definition sendToDiscord (j : job) (score : Z) (w : world) : world :=
  if is_sent (id j) w then w
  else
    let w1 := mark_as_sent (id j) w in
    {| hist := hist w1; disk := disk w1; ticks := ticks w1;
       trace := trace w1 ++ [EvPost j score (post j score)] |}.

Definition score_call (j : job) (w : world) : Z * world :=
  (scoreJobHybrid (cosine_of j) j cvSkills,
   {| hist := hist w; disk := disk w; ticks := ticks w; trace := trace w ++ [EvScore j] |}).

(** The [for job in allJobs] loop of [runJoblyst]. *)
Fixpoint run_loop (allJobs : list job) (w : world) : world :=
  match allJobs with
  | [] => w
  | j :: rest =>
      if is_sent (id j) w then run_loop rest w
      else if negb (roleFilter allowedRoles j) then run_loop rest w
      else if negb (locationFilter allowedLocations j) then run_loop rest w
      else if negb (experienceFilter j) then run_loop rest w
      else if negb (skillsExclusionFilter j) then run_loop rest w
      else
        let '(score, w1) := score_call j w in
        if (minScore <=? score)%Z then run_loop rest (sendToDiscord j score w1)
        else run_loop rest w1
  end.

(** [runJoblyst], with the collected jobs ([scrapeLinkedIn() +
    scrapeCompanyPages()]) given as [allJobs]. *)
Definition runJoblyst (cutoff_timestamp : string) (allJobs : list job) (w : world) : world :=
  let '(_, w1) := cleanup_old_entries cutoff_timestamp w in
  match allJobs with
  | [] => w1
  | _ => run_loop allJobs w1
  end.

End Run.

(** The job a logged effect is about, if any. *)
Definition event_job_id (e : event) : option string :=
  match e with
  | EvSave _ => None
  | EvScore j => Some (id j)
  | EvPost j _ _ => Some (id j)
  end.

(** Calls on the history store between two runs or within one:
    [mark_as_sent], [cleanup_old_entries] and [sendToDiscord]. *)
Inductive history_op :=
  | OpMark (job_id : string)
  | OpCleanup (cutoff_timestamp : string)
  | OpSend (j : job) (score : Z).

Definition apply_op (clock : nat -> string) (save_ok : bool) (post : job -> Z -> option Z)
    (o : history_op) (w : world) : world :=
  match o with
  | OpMark k => mark_as_sent clock save_ok k w
  | OpCleanup c => snd (cleanup_old_entries save_ok c w)
  | OpSend j score => sendToDiscord clock save_ok post j score w
  end.

Definition apply_ops (clock : nat -> string) (save_ok : bool) (post : job -> Z -> option Z)
    (ops : list history_op) (w : world) : world :=
  fold_left (fun w o => apply_op clock save_ok post o w) ops w.

(** The history file as [_load_history] finds it: absent, unreadable or
    not valid JSON (the [except] branch), or a JSON object mapping job ids
    to timestamps, which [json.load] gives back as the dict [json.dump]
    wrote. *)
Inductive history_file :=
  | NoFile
  | Unreadable
  | Stored (contents : gmap string string).

Definition _load_history (f : history_file) : gmap string string :=
  match f with
  | NoFile => ∅
  | Unreadable => ∅
  | Stored h => h
  end.

(** [JobHistory(history_file)]: [self.history = self._load_history()].
    [disk] is the history a reload of the file would see. *)
Definition new_job_history (f : history_file) : world :=
  {| hist := _load_history f; disk := _load_history f; ticks := 0; trace := [] |}.

(** Python [min] and [max] on a non-empty list of [str]: the first
    element, replaced by each later one that is strictly smaller
    (resp. larger). *)
Definition py_min (l : list string) : option string :=
  match l with
  | [] => None
  | x :: r => Some (fold_left (fun m y => if ts_lt y m then y else m) r x)
  end.

Definition py_max (l : list string) : option string :=
  match l with
  | [] => None
  | x :: r => Some (fold_left (fun m y => if ts_gt y m then y else m) r x)
  end.

Record stats := mkStats {
  total_jobs : nat;
  oldest_entry : option string;
  newest_entry : option string
}.

(** [get_stats]; [list(self.history.values())] is taken in the map's
    order, which does not change the minimum or the maximum. *)
Definition get_stats (w : world) : stats :=
  if bool_decide (hist w = ∅) then mkStats 0 None None
  else
    let timestamps := (map_to_list (hist w)).*2 in
    mkStats (size (hist w)) (py_min timestamps) (py_max timestamps).

(** The job ids of the webhook posts in a trace, in order. *)
Definition post_ids (tr : list event) : list string :=
  omap (fun e => match e with EvPost j _ _ => Some (id j) | _ => None end) tr.

(* ------------------------------------------------------------------ *)
(** ** Collection ([scrapeLinkedIn], [scrapeCompanyPages]) *)

(** [if job and job["id"] not in [j["id"] for j in jobs]: jobs.append(job)],
    where [job] is the result of [normalizeJob] ([None] when rejected). *)
Definition append_if_new (jobs : list job) (o : option job) : list job :=
  match o with
  | Some j => if bool_decide (id j ∈ map id jobs) then jobs else (jobs ++ [j])%list
  | None => jobs
  end.

(** The [jobs] list after the scraping loops, given the [normalizeJob]
    results in the order the cards were read. *)
Definition collect_jobs (found : list (option job)) : list job :=
  fold_left append_if_new found [].

(** The [unique_jobs] / [seen_ids] pass at the end of [scrapeLinkedIn]. *)
Fixpoint unique_jobs_go (seen_ids : gset string) (jobs : list job) : list job :=
  match jobs with
  | [] => []
  | j :: rest =>
      if bool_decide (id j ∈ seen_ids) then unique_jobs_go seen_ids rest
      else j :: unique_jobs_go ({[id j]} ∪ seen_ids) rest
  end.

Definition unique_jobs (jobs : list job) : list job := unique_jobs_go ∅ jobs.

(* ------------------------------------------------------------------ *)
(** ** The embed description of [sendToDiscord] *)

(** [desc = d[:400] + "..." if len(d) > 400 else d], then
    [if not desc: desc = "No description available"]. *)
Definition discord_desc (d : string) : string :=
  let desc := if (400 <? String.length d)%nat then take 400 d +:+ "..." else d in
  if String.eqb desc "" then "No description available" else desc.

(* ------------------------------------------------------------------ *)
(** ** Profile text and skills ([extractCVText], [cvSkills]) *)

(** [re.sub(r'\s+', ' ', s)]: each maximal run of whitespace becomes one
    space; [in_run] says the previous character was whitespace. *)
Fixpoint collapse_ws_go (in_run : bool) (s : string) : string :=
  match s with
  | EmptyString => EmptyString
  | String c r =>
      if is_space c then
        (if in_run then collapse_ws_go true r else String " " (collapse_ws_go true r))
      else String c (collapse_ws_go false r)
  end.

Definition collapse_ws (s : string) : string := collapse_ws_go false s.

(** The "Clean and combine" tail of [extractCVText] on the collected
    [parts] (each given as its [str(p)]; a falsy part is the empty string):
    join the non-empty parts with spaces, replace tags by a space,
    collapse whitespace, strip, lower-case. *)
Definition cv_clean (parts : list string) : string :=
  let text := String.concat " " (List.filter (fun p => negb (String.eqb p "")) parts) in
  let text := sub_tags text in
  let text := strip (collapse_ws text) in
  lower text.

(** [cv["skills"]]: absent, a list (new format) or a dict with ["items"]
    (old format; a missing ["items"] is the empty list). *)
Inductive cv_skill_entry := SkillStr (s : string) | SkillOther.
Inductive keywords_field := KwMissing | KwList (ks : list string) | KwOther.
Record skill_item := mkSkillItem {
  item_name : option string;
  item_keywords : keywords_field
}.
Inductive cv_skills_field :=
  | SkillsMissing
  | SkillsList (l : list cv_skill_entry)
  | SkillsDict (items : list skill_item).

(** The preparation of [cvSkills] at start-up. *)
Definition prepare_cvSkills (f : cv_skills_field) : list string :=
  match f with
  | SkillsMissing => []
  | SkillsList l =>
      flat_map (fun e => match e with SkillStr s => [lower s] | SkillOther => [] end) l
  | SkillsDict items =>
      flat_map (fun it =>
        lower (match item_name it with Some n => n | None => "" end) ::
        match item_keywords it with
        | KwMissing => []
        | KwList ks => map lower ks
        | KwOther => []
        end) items
  end.

(** Two whitespace characters next to each other somewhere in [s]. *)
Fixpoint ws_pair (s : string) : bool :=
  match s with
  | EmptyString => false
  | String c r =>
      (is_space c && match r with String d _ => is_space d | EmptyString => false end)
      || ws_pair r
  end.

(** Every whitespace character of [s] is the space character. *)
Fixpoint only_sp (s : string) : bool :=
  match s with
  | EmptyString => true
  | String c r => (negb (is_space c) || Ascii.eqb c " ") && only_sp r
  end.

Example sub_tags_ex1 : sub_tags "<b>Dev</b> role" = " Dev  role".
Proof. reflexivity. Qed.
Example sub_tags_ex2 : sub_tags "a <> b < c" = "a <> b < c".
Proof. reflexivity. Qed.
Example sub_tags_ex3 : sub_tags "<<x>y" = " y".
Proof. reflexivity. Qed.
Example strip_ex : strip "  a b  " = "a b".
Proof. reflexivity. Qed.
Example normalize_ex :
  option_map id (normalizeJob "Junior <b>Python</b> Dev" "Acme" "" "x" "u" None)
  = Some "acme-junior  python  dev".
Proof. reflexivity. Qed.
Example py_count_ex : py_count "vue" "vue vuevue" = 3%nat.
Proof. reflexivity. Qed.
Example score_ex :
  match normalizeJob "Junior Python Developer" "Acme" "" "entry level role using Python and React" "u" None with
  | Some j => (experienceFilter j, roleFilter [] j, Qeq_bool (computeKeywordScore j ["python"; "react"]) 1,
               scoreJobHybrid 0 j ["python"; "react"],
               F64.scoreJobHybrid (F64.of_Z 0) j ["python"; "react"])
  | None => (false, false, false, 0%Z, None)
  end = (true, true, true, 65%Z, Some 64%Z).
Proof. vm_compute. reflexivity. Qed.

(* ------------------------------------------------------------------ *)
(** ** Lemmas on the string primitives *)

Lemma lower_char_lt (c : ascii) : Ascii.eqb (lower_char c) "<" = Ascii.eqb c "<".
Proof. destruct c as [[] [] [] [] [] [] [] []]; reflexivity. Qed.

Lemma lower_char_gt (c : ascii) : Ascii.eqb (lower_char c) ">" = Ascii.eqb c ">".
Proof. destruct c as [[] [] [] [] [] [] [] []]; reflexivity. Qed.

Lemma lower_char_idem (c : ascii) : lower_char (lower_char c) = lower_char c.
Proof. destruct c as [[] [] [] [] [] [] [] []]; reflexivity. Qed.

Lemma lower_idem (s : string) : lower (lower s) = lower s.
Proof. induction s as [|c r IH]; simpl; [done|]. by rewrite lower_char_idem, IH. Qed.

Lemma has_char_gt_lower (s : string) : has_char ">" (lower s) = has_char ">" s.
Proof. induction s as [|c r IH]; simpl; [done|]. by rewrite lower_char_gt, IH. Qed.

Lemma has_tag_lower (s : string) : has_tag (lower s) = has_tag s.
Proof.
  induction s as [|c r IH]; simpl; [done|].
  rewrite lower_char_lt, IH. destruct r as [|d r']; simpl; [done|].
  by rewrite lower_char_gt, has_char_gt_lower.
Qed.

Lemma append_cons (c : ascii) (x y : string) : String c x +:+ y = String c (x +:+ y).
Proof. reflexivity. Qed.

Lemma append_nil (y : string) : "" +:+ y = y.
Proof. reflexivity. Qed.

Lemma has_char_app (c : ascii) (x y : string) :
  has_char c (x +:+ y) = has_char c x || has_char c y.
Proof.
  induction x as [|d r IH]; [done|].
  rewrite append_cons; simpl. by rewrite IH, orb_assoc.
Qed.

Lemma has_tag_app_l (x y : string) : has_tag x = true -> has_tag (x +:+ y) = true.
Proof.
  induction x as [|c r IH]; [done|]. rewrite append_cons. simpl.
  intros [H | H]%orb_true_iff; apply orb_true_iff; [left | right; by apply IH].
  destruct r as [|d r']; [by rewrite andb_false_r in H|].
  rewrite append_cons. apply andb_true_iff in H as [Hc H].
  apply andb_true_iff in H as [Hd Hg].
  by rewrite Hc, Hd, has_char_app, Hg.
Qed.

Lemma has_tag_app_r (x y : string) : has_tag y = true -> has_tag (x +:+ y) = true.
Proof.
  induction x as [|c r IH]; [done|]. rewrite append_cons. simpl.
  intros H. apply orb_true_iff. right. by apply IH.
Qed.

Lemma lstrip_suffix (s : string) : exists w, s = w +:+ lstrip s.
Proof.
  induction s as [|c r [w IH]]; simpl; [by exists ""|].
  destruct (is_space c); [|by exists ""].
  exists (String c w). rewrite append_cons. by rewrite <- IH.
Qed.

Lemma rstrip_prefix (s : string) : exists w, s = rstrip s +:+ w.
Proof.
  induction s as [|c r [w IH]]; simpl; [by exists ""|].
  destruct (is_space c && String.eqb (rstrip r) ""); [by exists (String c r)|].
  exists w. rewrite append_cons. by rewrite <- IH.
Qed.

Lemma has_tag_strip (s : string) : has_tag s = false -> has_tag (strip s) = false.
Proof.
  intros H. unfold strip.
  destruct (lstrip_suffix s) as [w1 Hw1]. destruct (rstrip_prefix (lstrip s)) as [w2 Hw2].
  destruct (has_tag (rstrip (lstrip s))) eqn:E; [|done].
  exfalso. apply (has_tag_app_l _ w2) in E. rewrite <- Hw2 in E.
  apply (has_tag_app_r w1) in E. rewrite <- Hw1 in E. congruence.
Qed.

Lemma has_tag_has_char (s : string) : has_tag s = true -> has_char ">" s = true.
Proof.
  induction s as [|c r IH]; simpl; [done|].
  intros [H | H]%orb_true_iff; apply orb_true_iff; right; [|by apply IH].
  destruct r as [|d r']; [by rewrite andb_false_r in H|].
  apply andb_true_iff in H as [_ H]. apply andb_true_iff in H as [_ H].
  simpl. by rewrite H, orb_true_r.
Qed.

Lemma sub_tags_go_no_tag (s : string) :
  has_tag (sub_tags_go None s) = false /\
  forall b, has_char ">" b = false -> has_tag (sub_tags_go (Some b) s) = false.
Proof.
  induction s as [|c r [IHn IHs]]; simpl.
  - split; [done|]. intros b Hb.
    destruct (has_tag (String "<" b)) eqn:E; [|done].
    apply has_tag_has_char in E. simpl in E. congruence.
  - split.
    + destruct (Ascii.eqb c "<") eqn:Ec; [by apply IHs|].
      simpl. by rewrite Ec, IHn.
    + intros b Hb. destruct (Ascii.eqb c ">") eqn:Ec.
      * destruct (String.eqb b ""); simpl; by rewrite IHn.
      * apply IHs. by rewrite has_char_app, Hb; simpl; rewrite Ec.
Qed.

Lemma cleanHtml_no_tag (s : string) : has_tag (cleanHtml s) = false.
Proof.
  unfold cleanHtml. destruct (String.eqb s ""); [done|].
  apply has_tag_strip, sub_tags_go_no_tag.
Qed.

(* ------------------------------------------------------------------ *)
(** ** Normalizer *)

(** C5 (counterexample): a whitespace-only title is empty after trimming,
    yet [normalizeJob] returns a record (with an empty title). *)
Lemma C5_whitespace_title_accepted :
  strip "   " = "" /\
  option_map title (normalizeJob "   " "Acme" "Lahore" "Python role" "https://x.example/1" None)
  = Some "".
Proof. split; reflexivity. Qed.

Lemma append_nil_r (x : string) : x +:+ "" = x.
Proof. induction x as [|c r IH]; [done|]. rewrite append_cons. by rewrite IH. Qed.

Lemma append_assoc (x y z : string) : (x +:+ y) +:+ z = x +:+ (y +:+ z).
Proof. induction x as [|c r IH]; [done|]. rewrite !append_cons. by rewrite IH. Qed.

(** After a ['<'], a run of non-['>'] characters closed by ['>'] is one
    match of the regex: it becomes a single space. *)
Lemma sub_tags_go_tag (b p s : string) :
  has_char ">" b = false -> b <> "" ->
  sub_tags_go (Some p) (b +:+ String ">" s) = String " " (sub_tags_go None s).
Proof.
  revert p. induction b as [|c b IH]; intros p Hb Hne; [done|].
  simpl in Hb. apply orb_false_iff in Hb as [Hc Hb].
  rewrite append_cons. simpl. rewrite Hc.
  destruct b as [|c' b'].
  - simpl. destruct p; reflexivity.
  - apply IH; [exact Hb|discriminate].
Qed.

Lemma sub_tags_go_no_lt (s : string) : has_char "<" s = false -> sub_tags_go None s = s.
Proof.
  induction s as [|c r IH]; [done|]. simpl.
  intros [Hc Hr]%orb_false_iff. rewrite Hc. by rewrite IH.
Qed.

Lemma is_space_not_lt (c : ascii) : is_space c = true -> Ascii.eqb c "<" = false.
Proof. destruct c as [[] [] [] [] [] [] [] []]; try reflexivity; discriminate. Qed.

Lemma blank_sub_tags (s : string) : blank_markup s -> all_space (sub_tags_go None s) = true.
Proof.
  induction 1 as [|c s Hc Hs IH|b s Hne Hb Hs IH]; [done| |].
  - simpl. rewrite (is_space_not_lt c Hc). simpl. by rewrite Hc, IH.
  - simpl. rewrite sub_tags_go_tag by done. exact IH.
Qed.

Lemma all_space_strip (s : string) : all_space s = true -> strip s = "".
Proof.
  intros H. unfold strip. enough (lstrip s = "") as -> by done.
  induction s as [|c r IH]; [done|]. simpl in H |- *.
  apply andb_true_iff in H as [Hc Hr]. rewrite Hc. by apply IH.
Qed.

Lemma cleanHtml_blank (s : string) : blank_markup s -> strip (cleanHtml s) = "".
Proof.
  intros H. unfold cleanHtml. destruct (String.eqb s ""); [done|].
  unfold sub_tags. by rewrite (all_space_strip _ (blank_sub_tags s H)).
Qed.

(** C5 (amended): [normalizeJob] returns [None] exactly when the raw
    title or the raw company is empty (Python-falsy) before any cleaning;
    every other input yields a job record, and a title or company made
    only of whitespace and markup gives an empty normalized field. *)
Theorem normalizeJob_None_iff (t c l d a : string) (e : option string) :
  (normalizeJob t c l d a e = None <-> t = "" \/ c = "") /\
  (forall j, normalizeJob t c l d a e = Some j ->
     (blank_markup t -> title j = "") /\ (blank_markup c -> company j = "")).
Proof.
  split.
  - unfold normalizeJob.
    destruct (String.eqb t "") eqn:Et, (String.eqb c "") eqn:Ec; simpl;
      apply String.eqb_eq in Et || apply String.eqb_neq in Et;
      apply String.eqb_eq in Ec || apply String.eqb_neq in Ec; naive_solver.
  - intros j. unfold normalizeJob. destruct (String.eqb t "" || String.eqb c ""); [done|].
    intros H. injection H as <-. simpl.
    split; intros Hb; by rewrite (cleanHtml_blank _ Hb).
Qed.

Lemma normalizeJob_None_iff_witness :
  normalizeJob " <br> " "Acme" "Lahore" "Python role" "u" None
    = Some (mkJob "" "Acme" "lahore" "python role" "u" None "acme-") /\
  title (mkJob "" "Acme" "lahore" "python role" "u" None "acme-") = "".
Proof.
  split; [reflexivity|].
  apply (proj1 (proj2 (normalizeJob_None_iff " <br> " "Acme" "Lahore" "Python role" "u" None)
                 _ eq_refl)).
  apply blank_space; [reflexivity|].
  apply (blank_tag "br" " "); [discriminate|reflexivity|].
  apply blank_space; [reflexivity|apply blank_nil].
Defined.

(** C6: the fingerprint of a normalized job is the lower-cased company
    cut to 30 characters, ["-"], and the lower-cased title cut to 40
    characters; two normalized postings that agree on these two prefixes
    get the same fingerprint, whatever their descriptions, locations or
    links ([normalizeJob] being a function, it is deterministic). *)
Theorem normalizeJob_fingerprint
    (t1 c1 l1 d1 a1 t2 c2 l2 d2 a2 : string) (e1 e2 : option string) (j1 j2 : job) :
  normalizeJob t1 c1 l1 d1 a1 e1 = Some j1 ->
  normalizeJob t2 c2 l2 d2 a2 e2 = Some j2 ->
  id j1 = take 30 (lower (company j1)) +:+ "-" +:+ take 40 (lower (title j1)) /\
  (take 30 (lower (company j1)) = take 30 (lower (company j2)) ->
   take 40 (lower (title j1)) = take 40 (lower (title j2)) ->
   id j1 = id j2).
Proof.
  assert (Hid : forall t c l d a e j, normalizeJob t c l d a e = Some j ->
            id j = take 30 (lower (company j)) +:+ "-" +:+ take 40 (lower (title j))).
  { intros t c l d a e j H. unfold normalizeJob in H.
    destruct (String.eqb t "" || String.eqb c ""); [done|].
    injection H as <-. simpl. by rewrite lower_idem. }
  intros H1 H2. split; [by eapply Hid|].
  intros Hc Ht. rewrite (Hid _ _ _ _ _ _ _ H1), (Hid _ _ _ _ _ _ _ H2).
  by rewrite Hc, Ht.
Qed.

Lemma normalizeJob_fingerprint_witness :
  normalizeJob "Junior Developer" "Acme" "Lahore" "Builds web apps" "a" None
    = Some (mkJob "junior developer" "Acme" "lahore" "builds web apps" "a" None
              "acme-junior developer") /\
  normalizeJob "Junior Developer" "ACME" "Remote" "Maintains APIs" "b" None
    = Some (mkJob "junior developer" "ACME" "remote" "maintains apis" "b" None
              "acme-junior developer") /\
  id (mkJob "junior developer" "Acme" "lahore" "builds web apps" "a" None
        "acme-junior developer")
  = id (mkJob "junior developer" "ACME" "remote" "maintains apis" "b" None
          "acme-junior developer").
Proof.
  split; [reflexivity|]. split; [reflexivity|].
  apply (proj2 (normalizeJob_fingerprint
                  "Junior Developer" "Acme" "Lahore" "Builds web apps" "a"
                  "Junior Developer" "ACME" "Remote" "Maintains APIs" "b" None None
                  _ _ eq_refl eq_refl)); reflexivity.
Defined.

(** C8 (counterexample): the company keeps its case and internal runs of
    whitespace are not collapsed. *)
Lemma C8_company_case_and_spaces_kept :
  match normalizeJob "Junior Developer" "Acme Corp" "Lahore" "React   and  Node" "u" None with
  | Some j => company j = "Acme Corp" /\ lower (company j) <> company j
              /\ description j = "react   and  node"
  | None => False
  end.
Proof. vm_compute. repeat split; discriminate. Qed.

(* ------------------------------------------------------------------ *)
(** ** Filter chain *)

(** C2: a job whose combined title and description contain an
    experience-exclusion marker is rejected by [experienceFilter], also
    when the same text contains a fresh-graduate marker. *)
Theorem experienceFilter_reject_absolute (j : job) :
  contains_any rejectPatterns (title j +:+ " " +:+ description j) = true ->
  experienceFilter j = false.
Proof. intros H. unfold experienceFilter. by rewrite H. Qed.

Lemma experienceFilter_reject_absolute_witness :
  let j := mkJob "senior developer" "acme" "lahore" "fresh graduates welcome" "u" None
             "acme-senior developer" in
  contains_any freshPatterns (title j +:+ " " +:+ description j) = true /\
  experienceFilter j = false.
Proof.
  split; [reflexivity|]. apply experienceFilter_reject_absolute. reflexivity.
Defined.

(* ------------------------------------------------------------------ *)
(** ** Scorer *)














(** Facts on the binary64 operations: results of non-negative
    arguments are non-negative (never NaN, never negative). *)
Module F64Facts.
Import SpecFloat F64.

(** The sign a float carries, [None] for NaN. *)
Definition sign_of (x : spec_float) : option bool :=
  match x with
  | S754_zero s | S754_infinity s | S754_finite s _ _ => Some s
  | S754_nan => None
  end.

Lemma iter_pos_inv {A} (P : A -> Prop) (f : A -> A) :
  (forall a, P a -> P (f a)) -> forall p a, P a -> P (iter_pos f p a).
Proof. intros Hf p. induction p as [p IH | p IH |]; intros a Ha; simpl; auto. Qed.

Lemma shr_1_nonneg (r : shr_record) : (0 <= shr_m r)%Z -> (0 <= shr_m (shr_1 r))%Z.
Proof. destruct r as [[|[p|p|]|p] ? ?]; simpl; lia. Qed.

Lemma shr_fexp_nonneg (m e : Z) (l : location) :
  (0 <= m)%Z -> (0 <= shr_m (fst (shr_fexp prec emax m e l)))%Z.
Proof.
  intros Hm. unfold shr_fexp, shr.
  assert (H0 : (0 <= shr_m (shr_record_of_loc m l))%Z)
    by (destruct l as [|[]]; simpl; lia).
  destruct (_ - _)%Z; simpl; [exact H0| |exact H0].
  apply (iter_pos_inv (fun r => 0 <= shr_m r)%Z); [apply shr_1_nonneg|exact H0].
Qed.

Lemma round_nearest_even_nonneg (m : Z) (l : location) :
  (0 <= m)%Z -> (0 <= round_nearest_even m l)%Z.
Proof. intros Hm. destruct l as [|[]]; simpl; try destruct (Z.even m); lia. Qed.

(** Rounding a non-negative significand keeps the sign it is given. *)
Lemma binary_round_aux_sign (s : bool) (m e : Z) (l : location) :
  (0 <= m)%Z -> sign_of (binary_round_aux prec emax s m e l) = Some s.
Proof.
  intros Hm. unfold binary_round_aux.
  pose proof (shr_fexp_nonneg m e l Hm) as H1.
  destruct (shr_fexp prec emax m e l) as [r1 e1]. simpl in H1.
  pose proof (shr_fexp_nonneg (round_nearest_even (shr_m r1) (loc_of_shr_record r1)) e1 loc_Exact
                (round_nearest_even_nonneg _ _ H1)) as H2.
  destruct (shr_fexp prec emax _ e1 loc_Exact) as [r2 e2]. simpl in H2.
  destruct (shr_m r2) as [|p|p]; [done| |lia].
  by destruct (e2 <=? emax - prec)%Z.
Qed.

Lemma sign_not_neg (x : spec_float) : sign_of x = Some false -> not_neg x = true.
Proof. destruct x as [[]|[]| |[]]; simpl; congruence. Qed.

Lemma add_not_neg (x y : float) : not_neg x = true -> not_neg y = true -> not_neg (add x y) = true.
Proof.
  unfold add, SFadd.
  destruct x as [[]|[]| |[] mx ex]; try discriminate; intros _;
  destruct y as [[]|[]| |[] my ey]; try discriminate; intros _; try reflexivity.
  cbn [cond_Zopp]. unfold binary_normalize.
  destruct (shl_align mx ex _) as [a ?], (shl_align my ey _) as [b ?]. simpl.
  unfold binary_round. destruct (shl_align _ _ _) as [mz ez].
  apply sign_not_neg, binary_round_aux_sign. lia.
Qed.

Lemma mul_not_neg (x y : float) : not_neg x = true -> pos_finite y = true -> not_neg (mul x y) = true.
Proof.
  unfold mul, SFmul.
  destruct x as [[]|[]| |[] mx ex]; try discriminate; intros _;
  destruct y as [[]|[]| |[] my ey]; try discriminate; intros _; try reflexivity.
  apply sign_not_neg, binary_round_aux_sign. lia.
Qed.

Lemma div_not_neg (x y : float) : not_neg x = true -> not_neg y = true -> not_neg (div x y) = true.
Proof.
  unfold div, SFdiv.
  destruct x as [[]|[]| |[] mx ex]; try discriminate; intros _;
  destruct y as [[]|[]| |[] my ey]; try discriminate; intros _; try reflexivity.
  unfold SFdiv_core_binary.
  set (e' := Z.min _ _). set (s := (ex - ey - e')%Z).
  assert (Hm' : (0 <= match s with Zpos _ => Z.shiftl (Zpos mx) s | Z0 => Zpos mx
                                  | Zneg _ => 0 end)%Z).
  { destruct s; [lia| |lia]. apply Z.shiftl_nonneg. lia. }
  revert Hm'.
  generalize (match s with Zpos _ => Z.shiftl (Zpos mx) s | Z0 => Zpos mx | Zneg _ => 0%Z end).
  intros m' Hm'.
  assert (Hq : (0 <= m' / Zpos my)%Z) by (apply Z.div_pos; lia).
  unfold Z.div in Hq. destruct (Z.div_eucl m' (Zpos my)) as [q r]. simpl in Hq.
  apply sign_not_neg, binary_round_aux_sign. exact Hq.
Qed.

Lemma of_Z_not_neg (n : Z) : (0 <= n)%Z -> not_neg (of_Z n) = true.
Proof.
  intros Hn. unfold of_Z, binary_normalize.
  destruct n as [|p|p]; [done| |lia].
  unfold binary_round. destruct (shl_align _ _ _) as [mz ez].
  apply sign_not_neg, binary_round_aux_sign. lia.
Qed.

Lemma py_max0_not_neg (x : float) : not_neg (py_max0 x) = true.
Proof.
  unfold py_max0. destruct (SFltb (of_Z 0) x) eqn:E; [|by apply of_Z_not_neg].
  revert E. unfold SFltb, SFcompare. vm_compute of_Z.
  destruct x as [[]|[]| |[]]; simpl; congruence.
Qed.

Lemma keyword_matches_not_neg (text : string) (skills : list string) :
  not_neg (keyword_matches text skills) = true.
Proof.
  unfold keyword_matches.
  assert (Hgen : forall acc, not_neg acc = true ->
            not_neg (fold_left (fun matches skill =>
              let skill_lower := lower skill in
              if contains skill_lower text then add matches (of_Z 1)
              else if synonym_hit synonyms skill_lower text then add matches (lit 8 10)
              else matches) skills acc) = true).
  { induction skills as [|sk rest IH]; intros acc Hacc; cbn [fold_left]; [exact Hacc|].
    apply IH. cbv zeta.
    destruct (contains (lower sk) text); [|destruct (synonym_hit synonyms (lower sk) text)];
      try exact Hacc; apply add_not_neg; try exact Hacc; reflexivity. }
  apply Hgen. reflexivity.
Qed.

Lemma computeKeywordScore_not_neg (j : job) (skills : list string) :
  not_neg (computeKeywordScore j skills) = true.
Proof.
  unfold computeKeywordScore. destruct (0 <? List.length skills)%nat; [|reflexivity].
  apply div_not_neg; [apply keyword_matches_not_neg|]. apply of_Z_not_neg. lia.
Qed.

Lemma py_int_floor (x : float) :
  not_neg x = true -> is_finite x = true -> py_int x = Some (Qfloor (to_Q x)).
Proof.
  destruct x as [[]|[]| |[] m e]; try discriminate; intros _ _; [reflexivity|].
  unfold py_int, to_Q. f_equal.
  destruct (0 <=? e)%Z eqn:He.
  - apply Z.leb_le in He. rewrite Qfloor_Z. by apply Z.shiftl_mul_pow2.
  - apply Z.leb_gt in He. unfold Qfloor.
    rewrite <- (Z.opp_involutive e) at 1.
    rewrite Z.shiftl_opp_r, Z.shiftr_div_pow2 by lia. f_equal.
    rewrite Pos2Z.inj_pow, Z2Pos.id by lia. reflexivity.
Qed.

Lemma py_int_not_finite (x : float) : is_finite x = false -> py_int x = None.
Proof. by destruct x. Qed.

End F64Facts.

(** C4 (counterexample): with semantic similarity [0.61], no skills and
    no boost, the value is [42.7] (the double [42.699999999999996]); the
    code's [int()] gives [42] where rounding gives [43]. *)
Lemma C4_truncation_not_rounding :
  let j := mkJob "data analyst" "acme" "lahore" "excel reporting" "u" None "acme-data analyst" in
  F64.scoreJobHybrid (F64.lit 61 100) j [] = Some 42%Z /\
  score_formula_spec (F64.to_Q (F64.lit 61 100)) j [] = 43%Z.
Proof. split; vm_compute; reflexivity. Qed.

(** The end-to-end job of the spec (both skills matched, a fresh-graduate
    marker, a high-priority role, cosine [0]): the exact value is [65],
    but in doubles [(0.3 + 0.15) + 0.2] is [0.6499999999999999], times
    [100] is [64.99999999999999], and [int()] gives [64]. *)
Lemma C4_binary64_below_exact :
  let j := mkJob "junior python developer" "Acme" "pakistan"
             "entry level role using python and react" "u" None "acme-junior python developer" in
  score_value 0 j ["python"; "react"] == 65 /\
  F64.scoreJobHybrid (F64.of_Z 0) j ["python"; "react"] = Some 64%Z.
Proof. split; vm_compute; reflexivity. Qed.

(** C4 (amended): the score is [min(100, int(v))] for the double
    [v = (((max(0, cosine) * 0.70 + keyword * 0.30) + freshGradBoost) + roleBoost) * 100]
    computed in binary64 in the code's order; [v] is never negative, so
    [int] is the floor of [v]: the value is truncated, not rounded.  [int]
    raises where [v] is not finite. *)
Theorem scoreJobHybrid_formula (c : F64.float) (j : job) (cvSkills : list string) :
  let v := F64.mul (F64.add (F64.add (F64.add (F64.mul (F64.py_max0 c) (F64.lit 70 100))
                                              (F64.mul (F64.computeKeywordScore j cvSkills)
                                                       (F64.lit 30 100)))
                                     (F64.freshGradBoost j))
                            (F64.roleBoost j))
                   (F64.of_Z 100) in
  F64.not_neg v = true /\
  F64.scoreJobHybrid c j cvSkills =
    if F64.is_finite v then Some (Z.min 100 (Qfloor (F64.to_Q v))) else None.
Proof.
  intros v.
  assert (Hv : F64.not_neg v = true).
  { unfold v. apply F64Facts.mul_not_neg; [|reflexivity].
    apply F64Facts.add_not_neg; [apply F64Facts.add_not_neg; [apply F64Facts.add_not_neg|]|].
    - apply F64Facts.mul_not_neg; [apply F64Facts.py_max0_not_neg|reflexivity].
    - apply F64Facts.mul_not_neg; [apply F64Facts.computeKeywordScore_not_neg|reflexivity].
    - unfold F64.freshGradBoost. by destruct (existsb _ _).
    - unfold F64.roleBoost.
      by repeat match goal with |- context [if ?b then _ else _] => destruct b end. }
  split; [exact Hv|].
  unfold F64.scoreJobHybrid. fold v.
  destruct (F64.is_finite v) eqn:Hf.
  - by rewrite (F64Facts.py_int_floor v Hv Hf).
  - by rewrite (F64Facts.py_int_not_finite v Hf).
Qed.




(* ------------------------------------------------------------------ *)
(** ** History store *)

Lemma cleanup_hist (save_ok : bool) (cutoff : string) (w : world) :
  hist (snd (cleanup_old_entries save_ok cutoff w))
  = filter (fun kv : string * string => ts_gt kv.2 cutoff = true) (hist w).
Proof. unfold cleanup_old_entries. by destruct (_ <? _)%nat. Qed.

Lemma cleanup_count (save_ok : bool) (cutoff : string) (w : world) :
  fst (cleanup_old_entries save_ok cutoff w)
  = (size (hist w) - size (filter (fun kv : string * string => ts_gt kv.2 cutoff = true) (hist w)))%nat.
Proof. unfold cleanup_old_entries. by destruct (_ <? _)%nat. Qed.

Lemma size_filter_split (P : string * string -> Prop) `{!forall x, Decision (P x)}
    (m : gmap string string) :
  size m = (size (filter P m) + size (filter (fun kv => ~ P kv) m))%nat.
Proof.
  rewrite <- (map_size_disj_union (filter P m) (filter (fun kv => ~ P kv) m))
    by apply map_disjoint_filter_complement.
  by rewrite map_filter_union_complement.
Qed.

(** C3 (counterexample): the cutoff is taken from the wall clock, so a
    second call made a few microseconds after the first, with no entry
    added in between, removes the entry that crossed the cutoff meanwhile. *)
Lemma C3_second_cleanup_removes :
  let w0 := mkWorld {["company1-job1" := "2026-10-12T12:00:00.000002"]} ∅ 0 [] in
  let first := cleanup_old_entries true "2026-10-12T12:00:00.000001" w0 in
  let second := cleanup_old_entries true "2026-10-12T12:00:00.000003" (snd first) in
  fst first = 0%nat /\ fst second = 1%nat.
Proof. split; vm_compute; reflexivity. Qed.

(** C3 (amended): for a cutoff [now - retention_days], [cleanup_old_entries]
    removes every entry whose timestamp is strictly older than the cutoff,
    keeps every entry strictly newer, adds nothing, returns the number of
    entries removed, leaves an empty store unchanged returning 0, and a
    second call with the same cutoff removes 0. *)
Theorem cleanup_old_entries_spec (save_ok : bool) (cutoff : string) (w : world) :
  let r := cleanup_old_entries save_ok cutoff w in
  (forall k t, hist w !! k = Some t -> ts_lt t cutoff = true -> hist (snd r) !! k = None) /\
  (forall k t, hist w !! k = Some t -> ts_gt t cutoff = true -> hist (snd r) !! k = Some t) /\
  hist (snd r) ⊆ hist w /\
  fst r = size (filter (fun kv : string * string => ts_gt kv.2 cutoff <> true) (hist w)) /\
  (hist w = ∅ -> r = (0%nat, w)) /\
  fst (cleanup_old_entries save_ok cutoff (snd r)) = 0%nat.
Proof.
  intros r. subst r. rewrite !cleanup_count, !cleanup_hist. repeat split.
  - intros k t Hk Ht. apply map_lookup_filter_None_2. right.
    intros x Hx. rewrite Hk in Hx. injection Hx as <-.
    unfold ts_lt in Ht; unfold ts_gt. simpl. by destruct (String.compare t cutoff).
  - intros k t Hk Ht. by apply map_lookup_filter_Some_2.
  - apply map_filter_subseteq.
  - rewrite (size_filter_split (fun kv : string * string => ts_gt kv.2 cutoff = true) (hist w)) at 1.
    lia.
  - intros He. unfold cleanup_old_entries. rewrite He, map_filter_empty.
    destruct w as [h d n tr]; simpl in *. by subst h.
  - rewrite map_filter_filter_l; [lia|]. naive_solver.
Qed.

Lemma cleanup_old_entries_spec_witness :
  let w0 := mkWorld {["a-dev" := "2026-10-01T09:00:00"; "b-dev" := "2026-10-18T09:00:00"]} ∅ 0 [] in
  hist (snd (cleanup_old_entries true "2026-10-12T09:00:00" w0)) !! "a-dev" = None /\
  hist (snd (cleanup_old_entries true "2026-10-12T09:00:00" w0)) !! "b-dev"
    = Some "2026-10-18T09:00:00".
Proof.
  intros w0. destruct (cleanup_old_entries_spec true "2026-10-12T09:00:00" w0)
    as [H1 [H2 _]]. split.
  - apply (H1 "a-dev" "2026-10-01T09:00:00"); reflexivity.
  - apply (H2 "b-dev" "2026-10-18T09:00:00"); reflexivity.
Defined.

(* ------------------------------------------------------------------ *)
(** ** Dispatch and the run *)

Lemma is_sent_Some (k : string) (w : world) : is_sent k w = true <-> is_Some (hist w !! k).
Proof. unfold is_sent. destruct (hist w !! k); split; intros H; try done. Qed.

Lemma sendToDiscord_fresh clock save_ok post (j : job) (score : Z) (w : world) :
  is_sent (id j) w = false ->
  sendToDiscord clock save_ok post j score w =
  {| hist := <[id j := clock (ticks w)]> (hist w);
     disk := if save_ok then <[id j := clock (ticks w)]> (hist w) else disk w;
     ticks := S (ticks w);
     trace := trace w ++ [EvSave (<[id j := clock (ticks w)]> (hist w));
                          EvPost j score (post j score)] |}.
Proof.
  intros H. unfold sendToDiscord. rewrite H. simpl.
  by rewrite <- app_assoc.
Qed.

Lemma sendToDiscord_sent clock save_ok post (j : job) (score : Z) (w : world) :
  is_sent (id j) w = true ->
  sendToDiscord clock save_ok post j score w = w.
Proof.
  intros H. unfold sendToDiscord. by rewrite H.
Qed.

(** C10: on a job not yet sent, [sendToDiscord] inserts the fingerprint,
    then saves the history (the snapshot holds the fingerprint), and only
    then calls the webhook; the history does not depend on the webhook's
    outcome (whatever [post] returns or raises), and any later dispatch of
    the same fingerprint leaves the state unchanged.  On a job already
    sent, the state, history file and effects are unchanged. *)
Theorem sendToDiscord_marks_before_post clock save_ok post (j : job) (score : Z) (w : world) :
  (is_sent (id j) w = false ->
   let w' := sendToDiscord clock save_ok post j score w in
   hist w' = <[id j := clock (ticks w)]> (hist w) /\
   trace w' = (trace w ++ [EvSave (hist w'); EvPost j score (post j score)])%list /\
   disk w' = (if save_ok then hist w' else disk w) /\
   (forall post', hist (sendToDiscord clock save_ok post' j score w) = hist w') /\
   is_sent (id j) w' = true /\
   (forall j' score' post', id j' = id j ->
      sendToDiscord clock save_ok post' j' score' w' = w')) /\
  (is_sent (id j) w = true -> sendToDiscord clock save_ok post j score w = w).
Proof.
  split.
  - intros H w'. subst w'. rewrite !sendToDiscord_fresh by done. simpl.
    repeat split; try done.
    + intros post'. by rewrite sendToDiscord_fresh.
    + apply is_sent_Some. cbn [hist]. rewrite lookup_insert_eq. by eexists.
    + intros j' score' post' Hj. unfold sendToDiscord at 1.
      replace (is_sent (id j') _) with true; [done|]. symmetry.
      apply is_sent_Some. cbn [hist]. rewrite Hj, lookup_insert_eq. by eexists.
  - intros H. unfold sendToDiscord. by rewrite H.
Qed.

Lemma sendToDiscord_marks_before_post_witness :
  let j := mkJob "junior developer" "acme" "lahore" "react" "u" None "acme-junior developer" in
  let w0 := mkWorld ∅ ∅ 0 [] in
  let clock := fun _ : nat => "2026-10-19T10:00:00" in
  let post := fun (_ : job) (_ : Z) => @None Z in
  is_sent (id j) w0 = false /\
  hist (sendToDiscord clock true post j 65 w0) = {["acme-junior developer" := "2026-10-19T10:00:00"]}.
Proof.
  intros j w0 clock post. split; [reflexivity|].
  destruct (proj1 (sendToDiscord_marks_before_post clock true post j 65 w0) eq_refl) as [H _].
  rewrite H. reflexivity.
Defined.

Section RunProofs.

Variable clock : nat -> string.
Variable save_ok : bool.
Variable post : job -> Z -> option Z.
Variable cosine_of : job -> Q.
Variable allowedRoles allowedLocations cvSkills : list string.
Variable minScore : Z.

Let loop := run_loop clock save_ok post cosine_of allowedRoles allowedLocations cvSkills minScore.

Lemma apply_op_keeps (fp s : string) (o : history_op) (w : world) :
  hist w !! fp = Some s ->
  (forall c, o = OpCleanup c -> ts_gt s c = true) ->
  (forall k, o = OpMark k -> k <> fp) ->
  hist (apply_op clock save_ok post o w) !! fp = Some s.
Proof.
  intros Hw Hc Hm. destruct o as [k | c | j score]; unfold apply_op.
  - cbn [hist mark_as_sent _save_history]. rewrite lookup_insert_ne; [done|]. by apply (Hm k).
  - rewrite cleanup_hist. apply map_lookup_filter_Some_2; [done|]. by apply Hc.
  - destruct (is_sent (id j) w) eqn:Hs.
    + by rewrite sendToDiscord_sent.
    + rewrite sendToDiscord_fresh by done. cbn [hist].
      rewrite lookup_insert_ne; [done|]. intros Heq. rewrite Heq in Hs.
      unfold is_sent in Hs. by rewrite Hw in Hs.
Qed.

Lemma apply_ops_keeps (fp s : string) (ops : list history_op) (w : world) :
  hist w !! fp = Some s ->
  (forall c, In (OpCleanup c) ops -> ts_gt s c = true) ->
  (forall k, In (OpMark k) ops -> k <> fp) ->
  hist (apply_ops clock save_ok post ops w) !! fp = Some s.
Proof.
  revert w. induction ops as [|o rest IH]; intros w Hw Hc Hm; simpl; [done|].
  apply IH.
  - apply apply_op_keeps; [done| |]; intros ? ->; [apply Hc | apply Hm]; by left.
  - intros c Hin. apply Hc. by right.
  - intros k Hin. apply Hm. by right.
Qed.

Lemma cleanup_trace (cutoff : string) (w : world) :
  exists tr, trace (snd (cleanup_old_entries save_ok cutoff w)) = (trace w ++ tr)%list /\
             Forall (fun e => event_job_id e = None) tr.
Proof.
  unfold cleanup_old_entries. destruct (_ <? _)%nat; simpl.
  - eexists. split; [reflexivity|]. by repeat constructor.
  - exists []. by rewrite app_nil_r.
Qed.

Lemma run_loop_skips (fp : string) (jobs : list job) (w : world) :
  is_Some (hist w !! fp) ->
  is_Some (hist (loop jobs w) !! fp) /\
  exists tr, trace (loop jobs w) = (trace w ++ tr)%list /\
             Forall (fun e => event_job_id e <> Some fp) tr.
Proof.
  revert w. induction jobs as [|j rest IH]; intros w Hw; simpl.
  { split; [done|]. exists []. by rewrite app_nil_r. }
  destruct (is_sent (id j) w) eqn:Hs; [by apply IH|].
  assert (Hne : id j <> fp).
  { intros Heq. rewrite Heq in Hs. apply not_true_iff_false in Hs. apply Hs.
    by apply is_sent_Some. }
  destruct (negb (roleFilter allowedRoles j)); [by apply IH|].
  destruct (negb (locationFilter allowedLocations j)); [by apply IH|].
  destruct (negb (experienceFilter j)); [by apply IH|].
  destruct (negb (skillsExclusionFilter j)); [by apply IH|].
  unfold score_call.
  set (w1 := {| hist := hist w; disk := disk w; ticks := ticks w;
                trace := (trace w ++ [EvScore j])%list |}).
  destruct (minScore <=? scoreJobHybrid (cosine_of j) j cvSkills)%Z.
  - rewrite sendToDiscord_fresh by exact Hs.
    set (w2 := {| hist := _; disk := _; ticks := _; trace := _ |}).
    destruct (IH w2) as [Hin [tr [Htr Hall]]].
    { subst w2 w1. cbn [hist]. by rewrite lookup_insert_ne. }
    split; [done|].
    exists ([EvScore j; EvSave (<[id j := clock (ticks w1)]> (hist w1));
             EvPost j (scoreJobHybrid (cosine_of j) j cvSkills)
               (post j (scoreJobHybrid (cosine_of j) j cvSkills))] ++ tr)%list.
    rewrite Htr. subst w2 w1. cbn [trace]. split.
    + by rewrite <- !app_assoc.
    + apply Forall_app. split; [|done].
      repeat constructor; simpl; congruence.
  - destruct (IH w1) as [Hin [tr [Htr Hall]]]; [done|].
    split; [done|]. exists (EvScore j :: tr). rewrite Htr. subst w1. cbn [trace].
    split; [by rewrite <- app_assoc|]. constructor; [simpl; congruence|done].
Qed.

(** C1: a fingerprint marked sent stays in the history, so [is_sent]
    holds, through any later cleanup whose cutoff is older than its
    timestamp (the retention window) and any other dispatch or marking;
    and in a run, a job whose fingerprint is in the history with a
    timestamp within the window is never scored nor posted: no scorer call
    and no webhook call of the run concerns that fingerprint, and it is
    still recorded afterwards. *)
Theorem history_idempotent_delivery :
  (forall (fp : string) (w : world) (ops : list history_op),
     (forall c, In (OpCleanup c) ops -> ts_gt (clock (ticks w)) c = true) ->
     (forall k, In (OpMark k) ops -> k <> fp) ->
     is_sent fp (apply_ops clock save_ok post ops (mark_as_sent clock save_ok fp w)) = true) /\
  (forall (fp s cutoff : string) (allJobs : list job) (w : world),
     hist w !! fp = Some s -> ts_gt s cutoff = true ->
     let w' := runJoblyst clock save_ok post cosine_of allowedRoles allowedLocations
                 cvSkills minScore cutoff allJobs w in
     is_sent fp w' = true /\
     exists tr, trace w' = (trace w ++ tr)%list /\
                Forall (fun e => event_job_id e <> Some fp) tr).
Proof.
  split.
  - intros fp w ops Hc Hm. apply is_sent_Some. eexists.
    apply (apply_ops_keeps fp (clock (ticks w))); [|done|done].
    cbn [hist mark_as_sent _save_history]. by rewrite lookup_insert_eq.
  - intros fp s cutoff allJobs w Hw Hs w'. subst w'. unfold runJoblyst.
    destruct (cleanup_old_entries save_ok cutoff w) as [n w1] eqn:Ec.
    assert (Hw1 : hist w1 !! fp = Some s).
    { change w1 with (snd (n, w1)). rewrite <- Ec, cleanup_hist.
      by apply map_lookup_filter_Some_2. }
    destruct (cleanup_trace cutoff w) as [tr1 [Htr1 Hall1]]. rewrite Ec in Htr1. simpl in Htr1.
    assert (Hall1' : Forall (fun e => event_job_id e <> Some fp) tr1).
    { eapply Forall_impl; [exact Hall1|]. intros e ->. discriminate. }
    destruct allJobs as [|j rest].
    + split; [apply is_sent_Some; by eexists|]. by exists tr1.
    + destruct (run_loop_skips fp (j :: rest) w1) as [Hin [tr2 [Htr2 Hall2]]]; [by eexists|].
      split; [by apply is_sent_Some|].
      exists (tr1 ++ tr2)%list. fold loop. rewrite Htr2, Htr1, app_assoc.
      split; [done|]. by apply Forall_app.
Qed.

End RunProofs.

Lemma history_idempotent_delivery_witness :
  let j := mkJob "junior react developer" "acme" "lahore" "frontend role" "u" None
             "acme-junior react developer" in
  let w0 := mkWorld {["acme-junior react developer" := "2026-10-18T09:00:00"]} ∅ 0 [] in
  hist w0 !! "acme-junior react developer" = Some "2026-10-18T09:00:00" /\
  ts_gt "2026-10-18T09:00:00" "2026-10-12T09:00:00" = true /\
  is_sent "acme-junior react developer"
    (runJoblyst (fun _ => "2026-10-19T10:00:00") true (fun _ _ => None) (fun _ => 1%Q)
       ["developer"] ["lahore"] ["react"] 40 "2026-10-12T09:00:00" [j] w0) = true.
Proof.
  intros j w0. split; [reflexivity|]. split; [reflexivity|].
  apply (proj2 (history_idempotent_delivery (fun _ => "2026-10-19T10:00:00") true
                  (fun _ _ => None) (fun _ => 1%Q) ["developer"] ["lahore"] ["react"] 40)
           "acme-junior react developer" "2026-10-18T09:00:00" "2026-10-12T09:00:00" [j] w0
           eq_refl eq_refl).
Defined.

(* ------------------------------------------------------------------ *)
(** ** History store: no-op cleanup, marking, persistence, statistics *)

Lemma cleanup_none_removed (save_ok : bool) (cutoff : string) (w : world) :
  fst (cleanup_old_entries save_ok cutoff w) = 0%nat ->
  cleanup_old_entries save_ok cutoff w = (0%nat, w).
Proof.
  intros H0. rewrite cleanup_count in H0.
  assert (Heq : filter (fun kv : string * string => ts_gt kv.2 cutoff = true) (hist w) = hist w).
  { apply map_subseteq_size_eq; [apply map_filter_subseteq|]. lia. }
  unfold cleanup_old_entries. rewrite Heq, Nat.sub_diag. by destruct w.
Qed.

Lemma cleanup_disk (save_ok : bool) (cutoff : string) (w : world) :
  disk (snd (cleanup_old_entries save_ok cutoff w)) =
  if save_ok && (0 <? fst (cleanup_old_entries save_ok cutoff w))%nat
  then hist (snd (cleanup_old_entries save_ok cutoff w)) else disk w.
Proof.
  unfold cleanup_old_entries. cbv zeta.
  destruct (0 <? size (hist w) - size (filter (fun kv : string * string => ts_gt kv.2 cutoff = true)
                                          (hist w)))%nat eqn:E;
    simpl; rewrite ?E; by destruct save_ok.
Qed.

(** [cleanup_old_entries] returns 0 exactly when every entry is strictly
    newer than the cutoff; it then leaves the store as it was: same
    history, no write of the file, no effect. *)
Theorem cleanup_old_entries_noop (save_ok : bool) (cutoff : string) (w : world) :
  (fst (cleanup_old_entries save_ok cutoff w) = 0%nat <->
   forall k t, hist w !! k = Some t -> ts_gt t cutoff = true) /\
  (fst (cleanup_old_entries save_ok cutoff w) = 0%nat ->
   snd (cleanup_old_entries save_ok cutoff w) = w).
Proof.
  split; [split|].
  - intros H0 k t Hk. pose proof (cleanup_none_removed save_ok cutoff w H0) as E.
    pose proof (cleanup_hist save_ok cutoff w) as Hh. rewrite E in Hh. simpl in Hh.
    rewrite Hh in Hk. apply map_lookup_filter_Some in Hk as [_ Hp]. exact Hp.
  - intros Hall. rewrite cleanup_count, map_filter_id; [lia|].
    intros k t Hk. by apply (Hall k t).
  - intros H0. by rewrite (cleanup_none_removed save_ok cutoff w H0).
Qed.

Lemma cleanup_old_entries_noop_witness :
  let w0 := mkWorld {["a-dev" := "2026-10-18T09:00:00"]} {["a-dev" := "2026-10-18T09:00:00"]} 3 [] in
  fst (cleanup_old_entries true "2026-10-12T09:00:00" w0) = 0%nat /\
  snd (cleanup_old_entries true "2026-10-12T09:00:00" w0) = w0.
Proof.
  intros w0.
  assert (H0 : fst (cleanup_old_entries true "2026-10-12T09:00:00" w0) = 0%nat) by reflexivity.
  split; [exact H0|].
  exact (proj2 (cleanup_old_entries_noop true "2026-10-12T09:00:00" w0) H0).
Defined.

(** [mark_as_sent k] stores the current time under [k] (overwriting an
    older timestamp of [k]), leaves every other entry as it was, grows the
    history by one entry exactly when [k] was new, and then saves: the
    file holds the new history when the write succeeds, and the save is the
    only effect. *)
Theorem mark_as_sent_insert_lookup (clock : nat -> string) (save_ok : bool) (k : string) (w : world) :
  let w' := mark_as_sent clock save_ok k w in
  hist w' !! k = Some (clock (ticks w)) /\
  (forall k', k' <> k -> hist w' !! k' = hist w !! k') /\
  size (hist w') = (if is_sent k w then size (hist w) else S (size (hist w))) /\
  is_sent k w' = true /\
  disk w' = (if save_ok then hist w' else disk w) /\
  trace w' = (trace w ++ [EvSave (hist w')])%list.
Proof.
  intros w'. subst w'. cbn [hist disk trace mark_as_sent _save_history].
  split; [by rewrite lookup_insert_eq|]. split.
  { intros k' Hk'. by rewrite lookup_insert_ne. }
  split.
  { unfold is_sent. destruct (hist w !! k) eqn:Hk.
    - apply map_size_insert_Some. by eexists.
    - by apply map_size_insert_None. }
  split; [|done].
  apply is_sent_Some. cbn [hist mark_as_sent _save_history]. rewrite lookup_insert_eq. by eexists.
Qed.

Lemma mark_as_sent_insert_lookup_witness :
  let w0 := mkWorld {["a-dev" := "2026-10-18T09:00:00"]} ∅ 0 [] in
  let w1 := mark_as_sent (fun _ => "2026-10-19T10:00:00") true "b-dev" w0 in
  ("a-dev" <> "b-dev") /\ hist w1 !! "a-dev" = Some "2026-10-18T09:00:00" /\
  size (hist w1) = 2%nat.
Proof.
  intros w0 w1.
  destruct (mark_as_sent_insert_lookup (fun _ => "2026-10-19T10:00:00") true "b-dev" w0)
    as [_ [Hne [Hs _]]].
  unfold w1. split; [discriminate|]. split.
  - rewrite (Hne "a-dev"); [reflexivity|discriminate].
  - rewrite Hs. reflexivity.
Defined.

Lemma apply_op_synced (clock : nat -> string) (post : job -> Z -> option Z)
    (o : history_op) (w : world) :
  disk w = hist w -> disk (apply_op clock true post o w) = hist (apply_op clock true post o w).
Proof.
  intros Hw. destruct o as [k | c | j score]; unfold apply_op.
  - reflexivity.
  - rewrite cleanup_disk. simpl andb.
    destruct (0 <? fst (cleanup_old_entries true c w))%nat eqn:E; [done|].
    apply Nat.ltb_ge in E. assert (E0 : fst (cleanup_old_entries true c w) = 0%nat) by lia.
    by rewrite (cleanup_none_removed true c w E0).
  - destruct (is_sent (id j) w) eqn:Hs.
    + unfold sendToDiscord. by rewrite Hs.
    + by rewrite sendToDiscord_fresh.
Qed.

Lemma apply_ops_synced (clock : nat -> string) (post : job -> Z -> option Z)
    (ops : list history_op) (w : world) :
  disk w = hist w -> disk (apply_ops clock true post ops w) = hist (apply_ops clock true post ops w).
Proof.
  revert w. induction ops as [|o rest IH]; intros w Hw; simpl; [done|].
  apply IH, apply_op_synced, Hw.
Qed.

Lemma post_ids_elem (k : string) (tr : list event) :
  In k (post_ids tr) -> exists j s o, In (EvPost j s o) tr /\ id j = k.
Proof.
  intros Hk. apply list_elem_of_In, list_elem_of_omap in Hk as [e [He Hf]].
  destruct e as [? | ? | j s o]; try discriminate. injection Hf as <-.
  exists j, s, o. split; [by apply list_elem_of_In|done].
Qed.

Lemma post_ids_none (tr : list event) :
  Forall (fun e => event_job_id e = None) tr -> post_ids tr = [].
Proof.
  induction 1 as [|e tr He _ IH]; [done|].
  destruct e; try discriminate. exact IH.
Qed.

Lemma app_cons_split {A} (l1 l2 pre post : list A) (x : A) :
  (l1 ++ l2 = pre ++ x :: post)%list ->
  (exists pre2, pre = (l1 ++ pre2)%list /\ l2 = (pre2 ++ x :: post)%list) \/ In x l1.
Proof.
  revert pre. induction l1 as [|y l1 IH]; intros pre H; simpl in H.
  - left. by exists pre.
  - destruct pre as [|z pre]; simpl in H; injection H as Hy H.
    + right. by left.
    + destruct (IH pre H) as [(pre2 & -> & ->) | Hin].
      * left. exists pre2. subst z. done.
      * right. by right.
Qed.

Section RunExtra.

Variable clock : nat -> string.
Variable save_ok : bool.
Variable post : job -> Z -> option Z.
Variable cosine_of : job -> Q.
Variable allowedRoles allowedLocations cvSkills : list string.
Variable minScore : Z.

Let loop := run_loop clock save_ok post cosine_of allowedRoles allowedLocations cvSkills minScore.
Let run := runJoblyst clock save_ok post cosine_of allowedRoles allowedLocations cvSkills minScore.

Lemma run_loop_synced (jobs : list job) (w : world) :
  save_ok = true -> disk w = hist w -> disk (loop jobs w) = hist (loop jobs w).
Proof.
  intros Hok. revert w. induction jobs as [|j rest IH]; intros w Hw; simpl; [done|].
  destruct (is_sent (id j) w) eqn:Hs; [by apply IH|].
  destruct (negb (roleFilter allowedRoles j)); [by apply IH|].
  destruct (negb (locationFilter allowedLocations j)); [by apply IH|].
  destruct (negb (experienceFilter j)); [by apply IH|].
  destruct (negb (skillsExclusionFilter j)); [by apply IH|].
  unfold score_call.
  destruct (minScore <=? scoreJobHybrid (cosine_of j) j cvSkills)%Z; apply IH; [|done].
  rewrite sendToDiscord_fresh by exact Hs. cbn [disk hist]. by rewrite Hok.
Qed.

(** With writes succeeding, the history file and the in-memory history
    agree at every point: a [JobHistory] loaded from the file, then any
    sequence of [mark_as_sent], [cleanup_old_entries] and [sendToDiscord]
    calls, or a whole [runJoblyst], leaves a file from which a new
    [JobHistory] loads exactly the history of the old one. *)
Theorem history_file_in_sync (Hok : save_ok = true) :
  (forall (ops : list history_op) (w : world), disk w = hist w ->
     disk (apply_ops clock save_ok post ops w) = hist (apply_ops clock save_ok post ops w)) /\
  (forall (cutoff : string) (jobs : list job) (w : world), disk w = hist w ->
     disk (run cutoff jobs w) = hist (run cutoff jobs w)) /\
  (forall (f : history_file) (ops : list history_op),
     let w' := apply_ops clock save_ok post ops (new_job_history f) in
     hist (new_job_history (Stored (disk w'))) = hist w') /\
  (forall (f : history_file) (cutoff : string) (jobs : list job),
     let w' := run cutoff jobs (new_job_history f) in
     hist (new_job_history (Stored (disk w'))) = hist w').
Proof.
  assert (Hops : forall ops w, disk w = hist w ->
            disk (apply_ops clock save_ok post ops w) = hist (apply_ops clock save_ok post ops w)).
  { intros ops w Hw. rewrite Hok. by apply apply_ops_synced. }
  assert (Hrun : forall cutoff jobs w, disk w = hist w -> disk (run cutoff jobs w) = hist (run cutoff jobs w)).
  { intros cutoff jobs w Hw. unfold run, runJoblyst.
    pose proof (apply_op_synced clock post (OpCleanup cutoff) w Hw) as Hc.
    unfold apply_op in Hc. rewrite <- Hok in Hc.
    destruct (cleanup_old_entries save_ok cutoff w) as [n w1]. simpl in Hc.
    destruct jobs; [done|]. by apply run_loop_synced. }
  split; [exact Hops|]. split; [exact Hrun|]. split.
  - intros f ops w'. apply Hops. reflexivity.
  - intros f cutoff jobs w'. apply Hrun. reflexivity.
Qed.

Lemma run_loop_trace (jobs : list job) (w : world) :
  exists tr, trace (loop jobs w) = (trace w ++ tr)%list /\
    hist w ⊆ hist (loop jobs w) /\
    (forall j, In (EvScore j) tr ->
       hist w !! id j = None /\ roleFilter allowedRoles j = true /\
       locationFilter allowedLocations j = true /\ experienceFilter j = true /\
       skillsExclusionFilter j = true) /\
    (forall j s o, In (EvPost j s o) tr ->
       s = scoreJobHybrid (cosine_of j) j cvSkills /\
       (minScore <= s)%Z /\ o = post j s /\
       hist w !! id j = None /\ is_Some (hist (loop jobs w) !! id j)) /\
    (forall tr1 j s o tr2, tr = (tr1 ++ EvPost j s o :: tr2)%list -> In (EvScore j) tr1) /\
    NoDup (post_ids tr).
Proof.
  revert w. induction jobs as [|j rest IH]; intros w; simpl.
  { exists []. split; [by rewrite app_nil_r|]. split; [done|].
    split; [by intros ? []|]. split; [by intros ??? []|].
    split; [by intros [] ????|]. constructor. }
  destruct (is_sent (id j) w) eqn:Hs; [by apply IH|].
  assert (Hn : hist w !! id j = None).
  { unfold is_sent in Hs. by destruct (hist w !! id j). }
  destruct (negb (roleFilter allowedRoles j)) eqn:Hr; [by apply IH|].
  destruct (negb (locationFilter allowedLocations j)) eqn:Hl; [by apply IH|].
  destruct (negb (experienceFilter j)) eqn:He; [by apply IH|].
  destruct (negb (skillsExclusionFilter j)) eqn:Hx; [by apply IH|].
  apply negb_false_iff in Hr, Hl, He, Hx.
  unfold score_call.
  set (sc := scoreJobHybrid (cosine_of j) j cvSkills).
  set (w1 := {| hist := hist w; disk := disk w; ticks := ticks w;
                trace := (trace w ++ [EvScore j])%list |}).
  destruct (minScore <=? sc)%Z eqn:Hm.
  - apply Z.leb_le in Hm.
    rewrite sendToDiscord_fresh by exact Hs.
    set (w2 := {| hist := _; disk := _; ticks := _; trace := _ |}).
    assert (H12 : hist w ⊆ hist w2) by (apply insert_subseteq; exact Hn).
    assert (Hj2 : hist w2 !! id j = Some (clock (ticks w1))) by apply lookup_insert_eq.
    destruct (IH w2) as [tr [Htr [Hsub [Hsc [Hpo [Hord Hnd]]]]]].
    exists ([EvScore j; EvSave (<[id j := clock (ticks w1)]> (hist w1)); EvPost j sc (post j sc)]
            ++ tr)%list.
    split.
    { rewrite Htr. subst w2 w1. cbn [trace]. by rewrite <- !app_assoc. }
    split; [by etrans|].
    split.
    { intros j' Hin. apply in_app_or in Hin as [Hin | Hin].
      - destruct Hin as [Heq | [Heq | [Heq | []]]]; try discriminate.
        injection Heq as <-. done.
      - destruct (Hsc j' Hin) as [Hn' Hrest]. split; [|exact Hrest].
        by eapply lookup_weaken_None. }
    split.
    { intros j' s o Hin. apply in_app_or in Hin as [Hin | Hin].
      - destruct Hin as [Heq | [Heq | [Heq | []]]]; try discriminate.
        injection Heq as <- <- <-. do 4 (split; [done|]).
        eapply lookup_weaken_is_Some; [|exact Hsub]. rewrite Hj2. by eexists.
      - destruct (Hpo j' s o Hin) as [Hsc' [Hm' [Ho' [Hn' Hf']]]].
        do 3 (split; [done|]). split; [|done].
        by eapply lookup_weaken_None. }
    split.
    { intros tr1 j' s o tr2 Heq.
      destruct tr1 as [|x1 [|x2 [|x3 tr1]]]; simpl in Heq; injection Heq; try discriminate.
      - intros _ <- <- <-. by left.
      - intros Heq' _ _ _. right; right; right. by apply (Hord tr1 j' s o tr2). }
    unfold post_ids. rewrite omap_app. cbn. fold (post_ids tr).
    apply NoDup_cons. split; [|exact Hnd].
    intros Hin. apply list_elem_of_In, post_ids_elem in Hin as [j' [s [o [Hin Hid]]]].
    destruct (Hpo j' s o Hin) as [_ [_ [_ [Hn' _]]]]. rewrite Hid, Hj2 in Hn'. discriminate.
  - destruct (IH w1) as [tr [Htr [Hsub [Hsc [Hpo [Hord Hnd]]]]]].
    exists (EvScore j :: tr). split.
    { rewrite Htr. subst w1. cbn [trace]. by rewrite <- app_assoc. }
    split; [exact Hsub|]. split.
    { intros j' [Heq | Hin]; [injection Heq as <-; done|]. by apply Hsc. }
    split; [intros j' s o [Heq | Hin]; [discriminate|by apply Hpo]|].
    split; [|exact Hnd].
    intros tr1 j' s o tr2 Heq.
    destruct tr1 as [|x1 tr1]; simpl in Heq; injection Heq; [discriminate|].
    intros Heq' _. right. by apply (Hord tr1 j' s o tr2).
Qed.

(** In a run, a job is scored only if it passed all four filters and its
    fingerprint was not recorded within the retention window; a job is
    posted only with a score of at least [minScore], and every post of a
    job comes after a scoring of that job in the trace; no two posts of
    the run share a fingerprint, and every posted fingerprint is recorded
    as sent afterwards. *)
Theorem runJoblyst_posts_filtered (cutoff : string) (jobs : list job) (w : world) :
  let w' := run cutoff jobs w in
  exists tr, trace w' = (trace w ++ tr)%list /\
    (forall j, In (EvScore j) tr ->
       roleFilter allowedRoles j = true /\ locationFilter allowedLocations j = true /\
       experienceFilter j = true /\ skillsExclusionFilter j = true /\
       forall t, hist w !! id j = Some t -> ts_gt t cutoff = false) /\
    (forall j s o, In (EvPost j s o) tr ->
       s = scoreJobHybrid (cosine_of j) j cvSkills /\
       (minScore <= s)%Z /\ is_sent (id j) w' = true) /\
    (forall tr1 j s o tr2, tr = (tr1 ++ EvPost j s o :: tr2)%list -> In (EvScore j) tr1) /\
    NoDup (post_ids tr).
Proof.
  intros w'. subst w'. unfold run, runJoblyst.
  destruct (cleanup_trace save_ok cutoff w) as [tr1 [Htr1 Hall1]].
  pose proof (cleanup_hist save_ok cutoff w) as Hh.
  destruct (cleanup_old_entries save_ok cutoff w) as [n w1]. simpl in Htr1, Hh.
  assert (Hold : forall k, hist w1 !! k = None ->
                 forall t, hist w !! k = Some t -> ts_gt t cutoff = false).
  { intros k Hk t Ht. rewrite Hh in Hk.
    apply map_lookup_filter_None in Hk as [Hk | Hk]; [congruence|].
    specialize (Hk t Ht). simpl in Hk. by destruct (ts_gt t cutoff). }
  assert (Hp1 : post_ids tr1 = []) by (by apply post_ids_none).
  rewrite List.Forall_forall in Hall1.
  destruct jobs as [|j0 rest].
  - exists tr1. split; [exact Htr1|].
    split; [intros j Hin; discriminate (Hall1 _ Hin)|].
    split; [intros j s o Hin; discriminate (Hall1 _ Hin)|].
    split.
    { intros p1 j s o p2 Heq. exfalso.
      assert (Hin : In (EvPost j s o) tr1) by (rewrite Heq; apply in_or_app; right; by left).
      discriminate (Hall1 _ Hin). }
    rewrite Hp1. constructor.
  - fold loop. destruct (run_loop_trace (j0 :: rest) w1) as [tr2 [Htr2 [_ [Hsc [Hpo [Hord Hnd]]]]]].
    exists (tr1 ++ tr2)%list. split; [by rewrite Htr2, Htr1, app_assoc|].
    split.
    { intros j Hin. apply in_app_or in Hin as [Hin | Hin]; [discriminate (Hall1 _ Hin)|].
      destruct (Hsc j Hin) as [Hn [Hr [Hl [He Hx]]]].
      do 4 (split; [done|]). by apply (Hold (id j)). }
    split.
    { intros j s o Hin. apply in_app_or in Hin as [Hin | Hin]; [discriminate (Hall1 _ Hin)|].
      destruct (Hpo j s o Hin) as [Hsc' [Hm [_ [_ Hf]]]].
      do 2 (split; [done|]). by apply is_sent_Some. }
    split.
    { intros p1 j s o p2 Heq.
      destruct (app_cons_split tr1 tr2 p1 p2 _ Heq) as [(q1 & -> & H2) | Hin].
      - apply in_or_app. right. by apply (Hord q1 j s o p2).
      - discriminate (Hall1 _ Hin). }
    unfold post_ids. rewrite omap_app. fold (post_ids tr1) (post_ids tr2).
    by rewrite Hp1.
Qed.

End RunExtra.

Lemma history_file_in_sync_witness :
  let j := mkJob "junior react developer" "acme" "lahore" "frontend role" "u" None
             "acme-junior react developer" in
  let w' := runJoblyst (fun _ => "2026-10-19T10:00:00") true (fun _ _ => None) (fun _ => 1%Q)
              ["developer"] ["lahore"] ["react"] 40 "2026-10-12T09:00:00" [j]
              (new_job_history (Stored {["a-dev" := "2026-10-01T09:00:00"]})) in
  hist (new_job_history (Stored (disk w'))) = hist w'.
Proof.
  intros j w'.
  exact (proj2 (proj2 (proj2
           (history_file_in_sync (fun _ => "2026-10-19T10:00:00") true (fun _ _ => None)
              (fun _ => 1%Q) ["developer"] ["lahore"] ["react"] 40 eq_refl)))
           (Stored {["a-dev" := "2026-10-01T09:00:00"]}) "2026-10-12T09:00:00" [j]).
Defined.

Lemma runJoblyst_posts_filtered_witness :
  let j := mkJob "junior react developer" "acme" "lahore" "frontend role" "u" None
             "acme-junior react developer" in
  let w' := runJoblyst (fun _ => "2026-10-19T10:00:00") true (fun _ _ => None) (fun _ => 1%Q)
              ["developer"] ["lahore"] ["react"] 40 "2026-10-12T09:00:00" [j; j]
              (mkWorld ∅ ∅ 0 []) in
  post_ids (trace w') = ["acme-junior react developer"] /\ experienceFilter j = true /\
  is_sent (id j) w' = true.
Proof.
  intros j w'.
  destruct (runJoblyst_posts_filtered (fun _ => "2026-10-19T10:00:00") true (fun _ _ => None)
              (fun _ => 1%Q) ["developer"] ["lahore"] ["react"] 40 "2026-10-12T09:00:00" [j; j]
              (mkWorld ∅ ∅ 0 [])) as [tr [Htr [Hsc [Hpo [Hord _]]]]].
  fold w' in Htr, Hsc, Hpo. simpl in Htr.
  assert (Hin : In (EvPost j 100%Z None) tr) by (rewrite <- Htr; vm_compute; tauto).
  destruct (in_split _ _ Hin) as (p1 & p2 & Hsplit).
  split; [vm_compute; reflexivity|]. split.
  - apply (Hsc j). rewrite Hsplit. apply in_or_app. left. exact (Hord p1 j 100%Z None p2 Hsplit).
  - exact (proj2 (proj2 (Hpo j 100%Z None Hin))).
Defined.

(* ------------------------------------------------------------------ *)
(** ** [get_stats] *)

Lemma leb_refl (s : string) : String.leb s s = true.
Proof. apply Is_true_true_1. change (String.le s s). reflexivity. Qed.

Lemma leb_trans (a b c : string) :
  String.leb a b = true -> String.leb b c = true -> String.leb a c = true.
Proof.
  intros H1 H2. apply Is_true_true_1. change (String.le a c).
  transitivity b; by apply Is_true_true_2.
Qed.

Lemma ts_lt_leb (a b : string) : ts_lt a b = true -> String.leb a b = true.
Proof. unfold ts_lt, String.leb. by destruct (String.compare a b). Qed.

Lemma ts_lt_false_leb (a b : string) : ts_lt a b = false -> String.leb b a = true.
Proof.
  unfold ts_lt, String.leb. rewrite (String.compare_antisym b a).
  by destruct (String.compare a b).
Qed.

Lemma ts_gt_leb (a b : string) : ts_gt a b = true -> String.leb b a = true.
Proof.
  unfold ts_gt, String.leb. rewrite (String.compare_antisym b a).
  by destruct (String.compare a b).
Qed.

Lemma ts_gt_false_leb (a b : string) : ts_gt a b = false -> String.leb a b = true.
Proof. unfold ts_gt, String.leb. by destruct (String.compare a b). Qed.

Lemma py_min_fold (r : list string) (x : string) :
  let m := fold_left (fun m y => if ts_lt y m then y else m) r x in
  (m = x \/ In m r) /\ String.leb m x = true /\ Forall (fun y => String.leb m y = true) r.
Proof.
  revert x. induction r as [|y r IH]; intros x m; subst m; simpl.
  { split; [by left|]. split; [apply leb_refl|constructor]. }
  set (x' := if ts_lt y x then y else x).
  destruct (IH x') as [Hin [Hle Hall]].
  assert (Hx : String.leb x' x = true /\ String.leb x' y = true).
  { subst x'. destruct (ts_lt y x) eqn:E.
    - split; [by apply ts_lt_leb|apply leb_refl].
    - split; [apply leb_refl|by apply ts_lt_false_leb]. }
  split; [|split].
  - destruct Hin as [-> | Hin]; [|by right; right].
    subst x'. destruct (ts_lt y x); [by right; left|by left].
  - eapply leb_trans; [exact Hle|apply Hx].
  - constructor; [eapply leb_trans; [exact Hle|apply Hx]|exact Hall].
Qed.

Lemma py_max_fold (r : list string) (x : string) :
  let m := fold_left (fun m y => if ts_gt y m then y else m) r x in
  (m = x \/ In m r) /\ String.leb x m = true /\ Forall (fun y => String.leb y m = true) r.
Proof.
  revert x. induction r as [|y r IH]; intros x m; subst m; simpl.
  { split; [by left|]. split; [apply leb_refl|constructor]. }
  set (x' := if ts_gt y x then y else x).
  destruct (IH x') as [Hin [Hle Hall]].
  assert (Hx : String.leb x x' = true /\ String.leb y x' = true).
  { subst x'. destruct (ts_gt y x) eqn:E.
    - split; [by apply ts_gt_leb|apply leb_refl].
    - split; [apply leb_refl|by apply ts_gt_false_leb]. }
  split; [|split].
  - destruct Hin as [-> | Hin]; [|by right; right].
    subst x'. destruct (ts_gt y x); [by right; left|by left].
  - eapply leb_trans; [apply Hx|exact Hle].
  - constructor; [eapply leb_trans; [apply Hx|exact Hle]|exact Hall].
Qed.

Lemma get_stats_members (w : world) :
  hist w <> ∅ -> exists o n,
    get_stats w = mkStats (size (hist w)) (Some o) (Some n) /\
    (exists k, hist w !! k = Some o) /\ (exists k, hist w !! k = Some n) /\
    forall k t, hist w !! k = Some t -> String.leb o t = true /\ String.leb t n = true.
Proof.
  intros Hne. unfold get_stats. rewrite bool_decide_false by done.
  assert (Hv : forall t, In t (map_to_list (hist w)).*2 <-> exists k, hist w !! k = Some t).
  { intros t. rewrite <- list_elem_of_In, list_elem_of_fmap. split.
    - intros [[k t'] [-> Hin]]. exists k. by apply elem_of_map_to_list.
    - intros [k Hk]. exists (k, t). split; [done|]. by apply elem_of_map_to_list. }
  destruct ((map_to_list (hist w)).*2) as [|x r] eqn:E.
  { exfalso. apply Hne, map_empty. intros k.
    destruct (hist w !! k) as [t|] eqn:Hk; [|done].
    destruct (proj2 (Hv t) (ex_intro _ k Hk)). }
  destruct (py_min_fold r x) as [Hm1 [Hm2 Hm3]].
  destruct (py_max_fold r x) as [HM1 [HM2 HM3]].
  rewrite List.Forall_forall in Hm3, HM3.
  eexists _, _. split; [reflexivity|]. split; [|split].
  - apply Hv. destruct Hm1 as [-> | Hin]; [by left|by right].
  - apply Hv. destruct HM1 as [-> | Hin]; [by left|by right].
  - intros k t Hk. assert (Ht : In t (x :: r)) by (apply Hv; by exists k).
    destruct Ht as [<- | Ht]; [done|]. split; [by apply Hm3|by apply HM3].
Qed.

(** [get_stats] on an empty history gives 0 entries and no timestamps;
    otherwise it gives the number of entries, an [oldest_entry] and a
    [newest_entry] that are timestamps stored in the history, with every
    stored timestamp between the two (in the string order Python uses). *)
Theorem get_stats_spec (w : world) :
  (hist w = ∅ -> get_stats w = mkStats 0 None None) /\
  (hist w <> ∅ -> exists o n,
     get_stats w = mkStats (size (hist w)) (Some o) (Some n) /\
     (exists k, hist w !! k = Some o) /\ (exists k, hist w !! k = Some n) /\
     forall k t, hist w !! k = Some t -> String.leb o t = true /\ String.leb t n = true).
Proof.
  split; [|apply get_stats_members].
  intros He. unfold get_stats. by rewrite bool_decide_true.
Qed.

Lemma get_stats_spec_witness :
  let w0 := mkWorld {["a" := "2026-10-02"; "b" := "2026-10-01"; "c" := "2026-10-05"]} ∅ 0 [] in
  get_stats w0 = mkStats 3 (Some "2026-10-01") (Some "2026-10-05") /\
  String.leb "2026-10-01" "2026-10-02" = true.
Proof.
  intros w0. split; [vm_compute; reflexivity|].
  destruct (proj2 (get_stats_spec w0)) as [o [n [Hs [_ [_ Hb]]]]].
  { intros H. assert (H' : hist w0 !! "a" = None) by (rewrite H; apply lookup_empty).
    discriminate H'. }
  assert (Ho : o = "2026-10-01").
  { assert (E : get_stats w0 = mkStats 3 (Some "2026-10-01") (Some "2026-10-05"))
      by (vm_compute; reflexivity).
    rewrite Hs in E. by injection E. }
  subst o. exact (proj1 (Hb "a" "2026-10-02" eq_refl)).
Defined.

(** After [cleanup_old_entries], [get_stats] counts the entries that were
    kept, and its oldest and newest timestamps are strictly after the
    cutoff. *)
Theorem get_stats_after_cleanup (save_ok : bool) (cutoff : string) (w : world) :
  let w' := snd (cleanup_old_entries save_ok cutoff w) in
  total_jobs (get_stats w') = (size (hist w) - fst (cleanup_old_entries save_ok cutoff w))%nat /\
  (forall t, oldest_entry (get_stats w') = Some t \/ newest_entry (get_stats w') = Some t ->
             ts_gt t cutoff = true).
Proof.
  intros w'. subst w'. rewrite cleanup_count.
  pose proof (cleanup_hist save_ok cutoff w) as Hh.
  set (h' := filter (fun kv : string * string => ts_gt kv.2 cutoff = true) (hist w)) in *.
  assert (Hle : (size h' <= size (hist w))%nat)
    by (apply map_subseteq_size, map_filter_subseteq).
  destruct (decide (hist (snd (cleanup_old_entries save_ok cutoff w)) = ∅)) as [He | Hne].
  - unfold get_stats. rewrite bool_decide_true by done. split; [|by intros t [? | ?]].
    simpl. rewrite Hh in He.
    assert (H0 : size h' = 0%nat) by (rewrite He; apply map_size_empty). lia.
  - destruct (get_stats_members _ Hne) as [o [n [Hs [[k1 Hk1] [[k2 Hk2] _]]]]].
    rewrite Hs. simpl. split; [rewrite Hh; lia|].
    intros t [Ht | Ht]; injection Ht as <-;
      [rewrite Hh in Hk1; apply map_lookup_filter_Some in Hk1 as [_ Hp]
      |rewrite Hh in Hk2; apply map_lookup_filter_Some in Hk2 as [_ Hp]]; exact Hp.
Qed.

Lemma get_stats_after_cleanup_witness :
  let w0 := mkWorld {["a-dev" := "2026-10-01T09:00:00"; "b-dev" := "2026-10-18T09:00:00"]} ∅ 0 [] in
  oldest_entry (get_stats (snd (cleanup_old_entries true "2026-10-12T09:00:00" w0)))
    = Some "2026-10-18T09:00:00" /\
  ts_gt "2026-10-18T09:00:00" "2026-10-12T09:00:00" = true.
Proof.
  intros w0.
  assert (E : oldest_entry (get_stats (snd (cleanup_old_entries true "2026-10-12T09:00:00" w0)))
              = Some "2026-10-18T09:00:00") by (vm_compute; reflexivity).
  split; [exact E|].
  apply (proj2 (get_stats_after_cleanup true "2026-10-12T09:00:00" w0)). by left.
Defined.

(* ------------------------------------------------------------------ *)
(** ** Collection and de-duplication *)

Lemma unique_jobs_go_spec (seen : gset string) (jobs : list job) :
  NoDup (map id (unique_jobs_go seen jobs)) /\
  (forall j, j ∈ unique_jobs_go seen jobs -> id j ∉ seen) /\
  unique_jobs_go seen jobs `sublist_of` jobs /\
  (forall j, j ∈ jobs -> id j ∈ seen \/ id j ∈ map id (unique_jobs_go seen jobs)) /\
  ((forall j, j ∈ jobs -> id j ∉ seen) -> NoDup (map id jobs) -> unique_jobs_go seen jobs = jobs).
Proof.
  revert seen. induction jobs as [|j rest IH]; intros seen; simpl.
  { split; [constructor|]. split; [by intros ? ?%elem_of_nil|].
    split; [constructor|]. split; [by intros ? ?%elem_of_nil|done]. }
  case_bool_decide as Hj.
  - destruct (IH seen) as [H1 [H2 [H3 [H4 _]]]].
    split; [done|]. split; [done|]. split; [by apply sublist_cons|]. split.
    + intros j' [-> | Hin]%elem_of_cons; [by left|by apply H4].
    + intros Hfresh _. exfalso. apply (Hfresh j); [apply elem_of_cons; by left|done].
  - destruct (IH ({[id j]} ∪ seen)) as [H1 [H2 [H3 [H4 H5]]]].
    split.
    { simpl. apply NoDup_cons. split; [|done].
      intros (j' & Hid & Hin)%list_elem_of_fmap. apply (H2 j' Hin). set_solver. }
    split.
    { intros j' [-> | Hin]%elem_of_cons; [done|]. specialize (H2 j' Hin). set_solver. }
    split; [by apply sublist_skip|]. split.
    + intros j' [-> | Hin]%elem_of_cons; [right; simpl; apply elem_of_cons; by left|].
      destruct (H4 j' Hin) as [Hs | Hs].
      * apply elem_of_union in Hs as [Hs | Hs]; [|by left].
        apply elem_of_singleton in Hs. rewrite Hs. right. simpl. apply elem_of_cons. by left.
      * right. simpl. apply elem_of_cons. by right.
    + intros Hfresh Hnd. simpl in Hnd. apply NoDup_cons in Hnd as [Hnin Hnd].
      f_equal. apply H5; [|done].
      intros j' Hin. apply not_elem_of_union. split.
      * intros Hs%elem_of_singleton. apply Hnin, list_elem_of_fmap.
        exists j'. split; [by rewrite Hs|exact Hin].
      * apply Hfresh, elem_of_cons. by right.
Qed.

(** The [unique_jobs] pass of [scrapeLinkedIn] keeps, in their order, the
    first job of each id: its ids are pairwise distinct, it is a
    subsequence of the input, every id of the input still occurs, and on a
    list whose ids are already distinct it changes nothing. *)
Theorem unique_jobs_spec (jobs : list job) :
  NoDup (map id (unique_jobs jobs)) /\
  unique_jobs jobs `sublist_of` jobs /\
  (forall j, j ∈ jobs -> id j ∈ map id (unique_jobs jobs)) /\
  (NoDup (map id jobs) -> unique_jobs jobs = jobs).
Proof.
  destruct (unique_jobs_go_spec ∅ jobs) as [H1 [_ [H3 [H4 H5]]]].
  split; [done|]. split; [done|]. split.
  - intros j Hin. destruct (H4 j Hin) as [Hs | Hs]; [set_solver|done].
  - intros Hnd. apply H5; [set_solver|done].
Qed.

Lemma unique_jobs_spec_witness :
  let a := mkJob "junior developer" "acme" "lahore" "x" "u1" None "acme-junior developer" in
  let b := mkJob "junior developer" "acme" "remote" "y" "u2" None "acme-junior developer" in
  let c := mkJob "react intern" "beta" "lahore" "z" "u3" None "beta-react intern" in
  unique_jobs [a; b; c] = [a; c] /\ unique_jobs [a; c] = [a; c].
Proof.
  intros a b c. split; [vm_compute; reflexivity|].
  apply (proj2 (proj2 (proj2 (unique_jobs_spec [a; c])))).
  vm_compute. constructor; [|constructor; [|constructor]]; set_solver.
Defined.

Lemma append_if_new_fold (found : list (option job)) (acc : list job) :
  (exists t, fold_left append_if_new found acc = (acc ++ t)%list /\
             forall j, j ∈ t -> Some j ∈ found) /\
  (NoDup (map id acc) -> NoDup (map id (fold_left append_if_new found acc))) /\
  (forall j, Some j ∈ found -> id j ∈ map id (fold_left append_if_new found acc)).
Proof.
  revert acc. induction found as [|o found IH]; intros acc; simpl.
  { split; [exists []; split; [by rewrite app_nil_r|by intros ? ?%elem_of_nil]|].
    split; [done|by intros ? ?%elem_of_nil]. }
  assert (Hstep : exists t0, append_if_new acc o = (acc ++ t0)%list /\
                    (forall j, j ∈ t0 -> o = Some j) /\
                    (NoDup (map id acc) -> NoDup (map id (append_if_new acc o))) /\
                    (forall j, o = Some j -> id j ∈ map id (append_if_new acc o))).
  { destruct o as [j|]; simpl.
    - case_bool_decide as Hj.
      + exists []. split; [by rewrite app_nil_r|]. split; [by intros ? ?%elem_of_nil|].
        split; [done|]. by intros ? [= <-].
      + exists [j]. split; [done|]. split; [by intros ? ->%list_elem_of_singleton|].
        split.
        * intros Hnd. rewrite map_app. apply NoDup_app. split; [done|]. split.
          -- intros x Hx ->%list_elem_of_singleton. by apply Hj.
          -- apply NoDup_singleton.
        * intros ? [= <-]. rewrite map_app. apply elem_of_app. right. simpl. by left.
    - exists []. split; [by rewrite app_nil_r|]. split; [by intros ? ?%elem_of_nil|].
      split; [done|]. done. }
  destruct Hstep as [t0 [Ht0 [Hin0 [Hnd0 Hid0]]]].
  destruct (IH (append_if_new acc o)) as [[t [Ht Hin]] [Hnd Hid]].
  split; [|split].
  - exists (t0 ++ t)%list. rewrite Ht, Ht0, app_assoc. split; [done|].
    intros j [Hj | Hj]%elem_of_app.
    + apply elem_of_cons. left. symmetry. by apply Hin0.
    + apply elem_of_cons. right. by apply Hin.
  - intros H. by apply Hnd, Hnd0.
  - intros j [Hj | Hj]%elem_of_cons; [|by apply Hid].
    rewrite Ht, map_app. apply elem_of_app. left. by apply Hid0.
Qed.

(** The job list of the scraping loops ([append] only when the id is not
    yet in the list): ids are pairwise distinct, every job in it was
    produced by [normalizeJob], every produced job's id is in it, the first
    job produced with a given id is the one kept, and the [unique_jobs]
    pass of [scrapeLinkedIn] therefore changes nothing. *)
Theorem collect_jobs_spec (found : list (option job)) :
  NoDup (map id (collect_jobs found)) /\
  (forall j, j ∈ collect_jobs found -> Some j ∈ found) /\
  (forall j, Some j ∈ found -> id j ∈ map id (collect_jobs found)) /\
  (forall pre j rest, found = (pre ++ Some j :: rest)%list ->
     (forall j', Some j' ∈ pre -> id j' <> id j) -> j ∈ collect_jobs found) /\
  unique_jobs (collect_jobs found) = collect_jobs found.
Proof.
  unfold collect_jobs.
  destruct (append_if_new_fold found []) as [[t [Ht Hin]] [Hnd Hid]].
  rewrite app_nil_l in Ht.
  assert (Hnd' : NoDup (map id (fold_left append_if_new found []))) by (apply Hnd; constructor).
  split; [done|]. split; [rewrite Ht; exact Hin|]. split; [exact Hid|]. split.
  - intros pre j rest -> Hfirst. rewrite fold_left_app. simpl.
    destruct (append_if_new_fold pre []) as [[tp [Htp Hinp]] _].
    rewrite app_nil_l in Htp. rewrite Htp.
    case_bool_decide as Hj.
    + exfalso. apply list_elem_of_fmap in Hj as (j' & Hid' & Hj').
      apply (Hfirst j'); [by apply Hinp|done].
    + destruct (append_if_new_fold rest (tp ++ [j])) as [[tr [Htr _]] _].
      rewrite Htr. apply elem_of_app. left. apply elem_of_app. right. by left.
  - destruct (unique_jobs_go_spec ∅ (fold_left append_if_new found [])) as [_ [_ [_ [_ H5]]]].
    apply H5; [set_solver|done].
Qed.

Lemma collect_jobs_spec_witness :
  let a := mkJob "junior developer" "acme" "lahore" "x" "u1" None "acme-junior developer" in
  let b := mkJob "junior developer" "acme" "remote" "y" "u2" None "acme-junior developer" in
  collect_jobs [None; Some a; Some b] = [a] /\ a ∈ collect_jobs [None; Some a; Some b].
Proof.
  intros a b. split; [vm_compute; reflexivity|].
  apply (proj1 (proj2 (proj2 (proj2 (collect_jobs_spec [None; Some a; Some b]))))
           [None] a [Some b]); [reflexivity|].
  intros j' Hj'. apply list_elem_of_singleton in Hj'. discriminate.
Defined.

(* ------------------------------------------------------------------ *)
(** ** String lengths, the embed description and the fingerprint *)

Lemma length_append (x y : string) : String.length (x +:+ y) = (String.length x + String.length y)%nat.
Proof. induction x as [|c r IH]; [done|]. rewrite append_cons. simpl. by rewrite IH. Qed.

Lemma take_length (n : nat) (s : string) : String.length (take n s) = Nat.min n (String.length s).
Proof.
  unfold take. revert n. induction s as [|c r IH]; intros [|n]; simpl; try done.
  by rewrite IH.
Qed.

Lemma take_prefix (n : nat) (s : string) : exists r, s = take n s +:+ r.
Proof.
  unfold take. revert n. induction s as [|c r IH]; intros [|n]; simpl.
  - by exists "".
  - by exists "".
  - by exists (String c r).
  - destruct (IH n) as [r' Hr']. exists r'. rewrite append_cons. by rewrite <- Hr'.
Qed.

(** The description shown in a Discord embed is never empty and has at
    most 403 characters: an empty description becomes
    ["No description available"], one of at most 400 characters is shown
    as it is, and a longer one is cut to its first 400 characters followed
    by ["..."]. *)
Theorem discord_desc_spec (d : string) :
  (0 < String.length (discord_desc d) <= 403)%nat /\
  (d = "" -> discord_desc d = "No description available") /\
  (d <> "" -> (String.length d <= 400)%nat -> discord_desc d = d) /\
  ((400 < String.length d)%nat ->
   exists rest, d = take 400 d +:+ rest /\ String.length (take 400 d) = 400%nat /\
                discord_desc d = take 400 d +:+ "...").
Proof.
  unfold discord_desc.
  destruct (Nat.ltb_spec 400 (String.length d)) as [Hl | Hl].
  - assert (Ht : String.length (take 400 d) = 400%nat) by (rewrite take_length; lia).
    assert (Hn : String.eqb (take 400 d +:+ "...") "" = false).
    { apply String.eqb_neq. intros H. apply (f_equal String.length) in H.
      rewrite length_append, Ht in H. discriminate. }
    rewrite Hn. split; [rewrite length_append, Ht; simpl; lia|].
    split; [intros ->; simpl in Hl; lia|]. split; [lia|].
    intros _. destruct (take_prefix 400 d) as [r Hr]. by exists r.
  - destruct (String.eqb d "") eqn:E.
    + apply String.eqb_eq in E. subst d. split; [simpl; lia|]. split; [done|].
      split; [done|]. simpl. lia.
    + apply String.eqb_neq in E. split.
      * split; [|lia]. destruct d; [done|simpl; lia].
      * split; [done|]. split; [done|lia].
Qed.

Lemma discord_desc_spec_witness :
  discord_desc "" = "No description available" /\
  discord_desc "builds web apps" = "builds web apps".
Proof.
  split.
  - by apply (proj1 (proj2 (discord_desc_spec ""))).
  - apply (proj1 (proj2 (proj2 (discord_desc_spec "builds web apps")))); [discriminate|].
    simpl. lia.
Defined.

(** The fingerprint of a normalized job has at most 71 characters (30 of
    the company, the dash, 40 of the title), whatever the length of the
    raw title and company. *)
Theorem normalizeJob_id_length (t c l d a : string) (e : option string) (j : job) :
  normalizeJob t c l d a e = Some j -> (String.length (id j) <= 71)%nat.
Proof.
  unfold normalizeJob. destruct (String.eqb t "" || String.eqb c ""); [done|].
  intros H. injection H as <-. simpl.
  rewrite !length_append, !take_length. change (String.length "-") with 1%nat. lia.
Qed.

Lemma normalizeJob_id_length_witness :
  exists j, normalizeJob (String.concat " " (repeat "Engineer" 20)) "Acme" "" "x" "u" None = Some j /\
            (String.length (id j) <= 71)%nat.
Proof.
  eexists. split; [reflexivity|].
  apply (normalizeJob_id_length (String.concat " " (repeat "Engineer" 20)) "Acme" "" "x" "u" None).
  vm_compute. reflexivity.
Defined.

(* ------------------------------------------------------------------ *)
(** ** The profile text of [extractCVText] *)

Lemma is_space_lower_char (c : ascii) : is_space (lower_char c) = is_space c.
Proof. destruct c as [[] [] [] [] [] [] [] []]; reflexivity. Qed.

Lemma only_sp_lower_char (c : ascii) :
  negb (is_space (lower_char c)) || Ascii.eqb (lower_char c) " " =
  negb (is_space c) || Ascii.eqb c " ".
Proof. destruct c as [[] [] [] [] [] [] [] []]; reflexivity. Qed.

Lemma get_lower (i : nat) (s : string) :
  String.get i (lower s) = option_map lower_char (String.get i s).
Proof. revert i. induction s as [|c r IH]; intros [|i]; simpl; auto. Qed.

Lemma length_lower (s : string) : String.length (lower s) = String.length s.
Proof. induction s as [|c r IH]; simpl; auto. Qed.

Lemma has_char_gt_collapse (b : bool) (s : string) :
  has_char ">" (collapse_ws_go b s) = has_char ">" s.
Proof.
  revert b. induction s as [|c r IH]; intros b; simpl; [done|].
  destruct (is_space c) eqn:Hc.
  - assert (Ascii.eqb c ">" = false) by (destruct (Ascii.eqb_spec c ">"); [subst; discriminate|done]).
    destruct b; simpl; rewrite IH; by rewrite H.
  - simpl. by rewrite IH.
Qed.

Lemma collapse_has_tag (b : bool) (s : string) :
  has_tag (collapse_ws_go b s) = true -> has_tag s = true.
Proof.
  revert b. induction s as [|c r IH]; intros b; simpl; [done|].
  destruct (is_space c) eqn:Hc.
  - assert (Hlt : Ascii.eqb c "<" = false)
      by (destruct (Ascii.eqb_spec c "<"); [subst; discriminate|done]).
    destruct b; [intros H; rewrite (IH true H); apply orb_true_r|].
    simpl. intros H. rewrite (IH true H). apply orb_true_r.
  - simpl. intros [H | H]%orb_true_iff; [|rewrite (IH false H); apply orb_true_r].
    apply orb_true_iff. left.
    apply andb_true_iff in H as [Hc' H]. rewrite Hc'. simpl.
    destruct r as [|d r']; [done|]. simpl in H |- *.
    destruct (is_space d) eqn:Hd; simpl in H.
    + rewrite has_char_gt_collapse in H. rewrite H.
      destruct (Ascii.eqb_spec d ">"); [subst; discriminate|done].
    + apply andb_true_iff in H as [H1 H2]. rewrite has_char_gt_collapse in H2.
      by rewrite H1, H2.
Qed.

Lemma collapse_ws_pair (s : string) :
  ws_pair (collapse_ws_go false s) = false /\ ws_pair (collapse_ws_go true s) = false /\
  match collapse_ws_go true s with String c _ => is_space c = false | EmptyString => True end.
Proof.
  induction s as [|c r [IH1 [IH2 IH3]]]; simpl; [done|].
  destruct (is_space c) eqn:Hc.
  - split; [|done]. simpl. rewrite IH2.
    destruct (collapse_ws_go true r); [done|]. by rewrite IH3.
  - simpl. by rewrite Hc, IH1.
Qed.

Lemma collapse_only_sp (b : bool) (s : string) : only_sp (collapse_ws_go b s) = true.
Proof.
  revert b. induction s as [|c r IH]; intros b; simpl; [done|].
  destruct (is_space c) eqn:Hc; [destruct b; simpl; by rewrite ?IH|].
  simpl. by rewrite Hc, IH.
Qed.

Lemma ws_pair_app_l (x y : string) : ws_pair x = true -> ws_pair (x +:+ y) = true.
Proof.
  induction x as [|c r IH]; [done|]. rewrite append_cons. simpl.
  intros [H | H]%orb_true_iff; apply orb_true_iff; [left | right; by apply IH].
  destruct r as [|d r']; [by rewrite andb_false_r in H|]. by rewrite append_cons.
Qed.

Lemma ws_pair_app_r (x y : string) : ws_pair y = true -> ws_pair (x +:+ y) = true.
Proof.
  induction x as [|c r IH]; [done|]. rewrite append_cons. simpl.
  intros H. apply orb_true_iff. right. by apply IH.
Qed.

Lemma ws_pair_strip (s : string) : ws_pair s = false -> ws_pair (strip s) = false.
Proof.
  intros H. unfold strip.
  destruct (lstrip_suffix s) as [w1 Hw1]. destruct (rstrip_prefix (lstrip s)) as [w2 Hw2].
  destruct (ws_pair (rstrip (lstrip s))) eqn:E; [|done].
  exfalso. apply (ws_pair_app_l _ w2) in E. rewrite <- Hw2 in E.
  apply (ws_pair_app_r w1) in E. rewrite <- Hw1 in E. congruence.
Qed.

Lemma only_sp_app (x y : string) : only_sp (x +:+ y) = only_sp x && only_sp y.
Proof.
  induction x as [|c r IH]; [done|]. rewrite append_cons. simpl.
  by rewrite IH, andb_assoc.
Qed.

Lemma only_sp_strip (s : string) : only_sp s = true -> only_sp (strip s) = true.
Proof.
  intros H. unfold strip.
  destruct (lstrip_suffix s) as [w1 Hw1]. destruct (rstrip_prefix (lstrip s)) as [w2 Hw2].
  rewrite Hw1, only_sp_app in H. apply andb_true_iff in H as [_ H].
  rewrite Hw2, only_sp_app in H. by apply andb_true_iff in H as [H _].
Qed.

Lemma ws_pair_lower (s : string) : ws_pair (lower s) = ws_pair s.
Proof.
  induction s as [|c r IH]; simpl; [done|].
  rewrite IH, is_space_lower_char. destruct r as [|d r']; simpl; [done|].
  by rewrite is_space_lower_char.
Qed.

Lemma only_sp_lower (s : string) : only_sp (lower s) = only_sp s.
Proof. induction s as [|c r IH]; simpl; [done|]. by rewrite IH, only_sp_lower_char. Qed.

Lemma ws_pair_get (s : string) :
  ws_pair s = false -> forall i c d, String.get i s = Some c -> String.get (S i) s = Some d ->
  is_space c = false \/ is_space d = false.
Proof.
  induction s as [|c0 r IH]; intros H i c d Hc Hd; [done|].
  simpl in H. apply orb_false_iff in H as [H1 H2].
  destruct i as [|i]; simpl in Hc, Hd.
  - injection Hc as <-. destruct r as [|d0 r']; [done|]. simpl in Hd. injection Hd as <-.
    destruct (is_space c0); [by right|by left].
  - by apply (IH H2 i).
Qed.

Lemma only_sp_get (s : string) :
  only_sp s = true -> forall i c, String.get i s = Some c -> is_space c = true -> c = " "%char.
Proof.
  induction s as [|c0 r IH]; intros H i c Hc Hs; [done|].
  simpl in H. apply andb_true_iff in H as [H1 H2].
  destruct i as [|i]; simpl in Hc; [|by apply (IH H2 i)].
  injection Hc as <-. rewrite Hs in H1. simpl in H1. by apply Ascii.eqb_eq.
Qed.

Lemma lstrip_head (s : string) (c : ascii) : String.get 0 (lstrip s) = Some c -> is_space c = false.
Proof.
  induction s as [|c0 r IH]; simpl; [done|].
  destruct (is_space c0) eqn:Hc; [exact IH|]. simpl. by intros [= <-].
Qed.

Lemma rstrip_head (s : string) (c : ascii) : String.get 0 (rstrip s) = Some c -> String.get 0 s = Some c.
Proof.
  destruct s as [|c0 r]; simpl; [done|].
  destruct (is_space c0 && String.eqb (rstrip r) ""); simpl; done.
Qed.

Lemma rstrip_last (s : string) (c : ascii) :
  String.get (String.length (rstrip s) - 1) (rstrip s) = Some c -> is_space c = false.
Proof.
  induction s as [|c0 r IH]; simpl; [done|].
  destruct (is_space c0) eqn:Hc, (String.eqb (rstrip r) "") eqn:Hr; simpl.
  - done.
  - destruct (rstrip r) as [|d r'] eqn:E; [done|].
    simpl. intros H. apply IH. simpl. rewrite Nat.sub_0_r. exact H.
  - apply String.eqb_eq in Hr. rewrite Hr. simpl. by intros [= <-].
  - destruct (rstrip r) as [|d r'] eqn:E; [done|].
    simpl. intros H. apply IH. simpl. rewrite Nat.sub_0_r. exact H.
Qed.

(** The profile text built by [extractCVText] is in normal form: no
    [<...>] tag, lower-case, no whitespace at either end, never two
    whitespace characters in a row, and the only whitespace character in
    it is the space (tabs and line breaks have been replaced). *)
Theorem cv_clean_normal (parts : list string) :
  let t := cv_clean parts in
  has_tag t = false /\ lower t = t /\
  (forall c, String.get 0 t = Some c -> is_space c = false) /\
  (forall c, String.get (String.length t - 1) t = Some c -> is_space c = false) /\
  (forall i c d, String.get i t = Some c -> String.get (S i) t = Some d ->
     is_space c = false \/ is_space d = false) /\
  (forall i c, String.get i t = Some c -> is_space c = true -> c = " "%char).
Proof.
  intros t. subst t. unfold cv_clean.
  set (u0 := sub_tags _). set (u := strip (collapse_ws u0)).
  split.
  { rewrite has_tag_lower. apply has_tag_strip.
    destruct (has_tag (collapse_ws u0)) eqn:E; [|done].
    apply collapse_has_tag in E. unfold u0, sub_tags in E.
    by rewrite (proj1 (sub_tags_go_no_tag _)) in E. }
  split; [apply lower_idem|].
  split.
  { intros c Hc. rewrite get_lower in Hc.
    destruct (String.get 0 u) as [c0|] eqn:E; [|done]. injection Hc as <-.
    rewrite is_space_lower_char. apply rstrip_head in E. by apply lstrip_head in E. }
  split.
  { intros c Hc. rewrite get_lower, length_lower in Hc.
    destruct (String.get (String.length u - 1) u) as [c0|] eqn:E; [|done]. injection Hc as <-.
    rewrite is_space_lower_char. by apply rstrip_last in E. }
  split.
  { apply ws_pair_get. rewrite ws_pair_lower. apply ws_pair_strip, collapse_ws_pair. }
  apply only_sp_get. rewrite only_sp_lower. apply only_sp_strip, collapse_only_sp.
Qed.

Lemma cv_clean_normal_witness :
  cv_clean ["  Junior <b>Web</b>	Developer  "; ""; "React
Node"] = "junior web developer react node" /\
  String.get 0 (cv_clean ["  Junior <b>Web</b>	Developer  "; ""; "React
Node"]) = Some "j"%char /\
  is_space "j"%char = false.
Proof.
  split; [vm_compute; reflexivity|]. split; [vm_compute; reflexivity|].
  apply (proj1 (proj2 (proj2 (cv_clean_normal ["  Junior <b>Web</b>	Developer  "; ""; "React
Node"])))). vm_compute. reflexivity.
Defined.

(* ------------------------------------------------------------------ *)
(** ** Filters and scorer: acceptance, full keyword score, monotonicity *)

Lemma prefix_app (p x y : string) : String.prefix p x = true -> String.prefix p (x +:+ y) = true.
Proof.
  revert p. induction x as [|b x IH]; intros p H.
  - destruct p; [|discriminate]. rewrite append_nil. by destruct y.
  - rewrite append_cons. destruct p as [|a p]; [done|]. simpl in H |- *.
    destruct (Ascii.ascii_dec a b); [by apply IH|discriminate].
Qed.

Lemma contains_app_l (p x y : string) : contains p x = true -> contains p (x +:+ y) = true.
Proof.
  induction x as [|c r IH].
  - simpl. rewrite orb_false_r. intros H. destruct p as [|a p]; [|done].
    rewrite append_nil. by destruct y.
  - rewrite append_cons. simpl. intros [H | H]%orb_true_iff; apply orb_true_iff.
    + left. pose proof (prefix_app p (String c r) y H) as H'. rewrite append_cons in H'.
      exact H'.
    + right. by apply IH.
Qed.

Lemma contains_app_r (p x y : string) : contains p y = true -> contains p (x +:+ y) = true.
Proof.
  induction x as [|c r IH]; [done|]. rewrite append_cons. simpl.
  intros H. apply orb_true_iff. right. by apply IH.
Qed.

(** A job accepted by [experienceFilter] has no experience-exclusion
    marker in its title nor in its description (so no "senior" or "lead"
    anywhere), and it has a fresh-graduate marker in its title or
    description, or a title naming a developer, engineer or programmer. *)
Theorem experienceFilter_accept (j : job) :
  experienceFilter j = true ->
  (forall p, In p rejectPatterns -> contains p (title j) = false /\ contains p (description j) = false) /\
  (contains_any freshPatterns (title j +:+ " " +:+ description j) = true \/
   contains_any entryLevelTitles (title j) = true).
Proof.
  unfold experienceFilter.
  destruct (contains_any rejectPatterns _) eqn:Hr; [done|].
  intros Hacc. split.
  - intros p Hp. unfold contains_any in Hr.
    split; (destruct (contains p _) eqn:Hc; [|done]); exfalso;
      apply not_true_iff_false in Hr; apply Hr, existsb_exists; exists p; split; [done| |done|].
    + by apply contains_app_l.
    + apply contains_app_r. by apply (contains_app_r p " ").
  - destruct (contains_any freshPatterns _); [by left|right].
    destruct (contains_any entryLevelTitles (title j)); [done|].
    by rewrite !andb_false_l in Hacc.
Qed.

Lemma experienceFilter_accept_witness :
  let j := mkJob "react developer" "acme" "lahore" "build web apps" "u" None "acme-react developer" in
  experienceFilter j = true /\ contains "lead" (description j) = false.
Proof.
  intros j. split; [reflexivity|].
  apply (proj1 (experienceFilter_accept j eq_refl) "lead"). simpl. tauto.
Defined.







(* ------------------------------------------------------------------ *)
(** ** The profile's skill list *)

(** Every entry of the prepared [cvSkills] is lower-case, in both formats
    of [cv["skills"]]; so [skill.lower()] in [computeKeywordScore] leaves
    it unchanged. *)
Theorem prepare_cvSkills_lower (f : cv_skills_field) :
  Forall (fun s => lower s = s) (prepare_cvSkills f).
Proof.
  destruct f as [| l | items]; simpl; [constructor| |].
  - induction l as [|[s|] l IH]; simpl; [constructor| |exact IH].
    constructor; [apply lower_idem|exact IH].
  - induction items as [|[nm kw] items IH]; simpl; [constructor|].
    constructor; [apply lower_idem|]. apply Forall_app. split; [|exact IH].
    destruct kw as [| ks |]; [constructor| |constructor].
    apply Forall_forall. intros s Hs. apply list_elem_of_fmap in Hs as (k & -> & _).
    apply lower_idem.
Qed.

(** In the old (dict) format, an item without a ["name"] adds the empty
    skill (the default name, lower-cased), and [computeKeywordScore] credits it
    as a verbatim match in every job text. *)
Theorem prepare_cvSkills_unnamed_item (items : list skill_item) (it : skill_item) :
  In it items -> item_name it = None ->
  In "" (prepare_cvSkills (SkillsDict items)) /\ forall text, skill_credit text "" = 1%Q.
Proof.
  intros Hin Hn. split.
  - simpl. apply in_flat_map. exists it. split; [done|]. rewrite Hn. by left.
  - intros text. unfold skill_credit. simpl. by destruct text.
Qed.

Lemma prepare_cvSkills_unnamed_item_witness :
  let j := mkJob "data analyst" "acme" "lahore" "excel reporting" "u" None "acme-data analyst" in
  prepare_cvSkills (SkillsDict [mkSkillItem None KwOther]) = [""] /\
  (computeKeywordScore j (prepare_cvSkills (SkillsDict [mkSkillItem None KwOther])) == 1)%Q /\
  skill_credit "excel reporting" "" = 1%Q.
Proof.
  intros j. split; [reflexivity|]. split; [vm_compute; reflexivity|].
  apply (proj2 (prepare_cvSkills_unnamed_item [mkSkillItem None KwOther] (mkSkillItem None KwOther)
                  (or_introl eq_refl) eq_refl)).
Defined.

(* ------------------------------------------------------------------ *)
(** ** Normalizer: the stored text fields *)

Lemma lower_app (x y : string) : lower (x +:+ y) = lower x +:+ lower y.
Proof. induction x as [|c r IH]; [done|]. rewrite append_cons. simpl. by rewrite IH. Qed.

Lemma all_space_lower (s : string) : all_space (lower s) = all_space s.
Proof. induction s as [|c r IH]; [done|]. simpl. by rewrite is_space_lower_char, IH. Qed.

Lemma all_space_app (x y : string) : all_space (x +:+ y) = all_space x && all_space y.
Proof.
  induction x as [|c r IH]; [done|]. rewrite append_cons. simpl. by rewrite IH, andb_assoc.
Qed.

Lemma lstrip_split (s : string) : exists p, s = p +:+ lstrip s /\ all_space p = true.
Proof.
  induction s as [|c r [p [IH Hp]]]; simpl; [by exists ""|].
  destruct (is_space c) eqn:Hc; [|by exists ""].
  exists (String c p). rewrite append_cons, <- IH. simpl. by rewrite Hc, Hp.
Qed.

Lemma rstrip_split (s : string) : exists q, s = rstrip s +:+ q /\ all_space q = true.
Proof.
  induction s as [|c r [q [IH Hq]]]; simpl; [by exists ""|].
  destruct (is_space c) eqn:Hc; simpl.
  - destruct (String.eqb (rstrip r) "") eqn:Hr.
    + apply String.eqb_eq in Hr. exists (String c r). split; [done|].
      rewrite IH, Hr, append_nil. simpl. by rewrite Hc, Hq.
    + exists q. rewrite append_cons, <- IH. done.
  - exists q. rewrite append_cons, <- IH. done.
Qed.

Lemma inner_strip (s : string) : inner_of s (strip s).
Proof.
  unfold inner_of, strip.
  destruct (lstrip_split s) as [p [Hp Hsp]], (rstrip_split (lstrip s)) as [q [Hq Hsq]].
  exists p, q. split; [|done]. by rewrite <- Hq.
Qed.

Lemma inner_trans (x y z : string) : inner_of x y -> inner_of y z -> inner_of x z.
Proof.
  intros (p1 & q1 & -> & Hp1 & Hq1) (p2 & q2 & -> & Hp2 & Hq2).
  exists (p1 +:+ p2), (q2 +:+ q1).
  rewrite !all_space_app, Hp1, Hq1, Hp2, Hq2. split; [|done].
  by rewrite !append_assoc.
Qed.

Lemma inner_lower (x y : string) : inner_of x y -> inner_of (lower x) (lower y).
Proof.
  intros (p & q & -> & Hp & Hq). exists (lower p), (lower q).
  by rewrite !lower_app, !all_space_lower, Hp, Hq.
Qed.

Lemma trimmed_strip (s : string) : trimmed (strip s).
Proof.
  unfold trimmed, strip. split.
  - intros ch H. apply rstrip_head in H. by apply lstrip_head in H.
  - intros ch H. by apply rstrip_last in H.
Qed.

Lemma trimmed_lower (s : string) : trimmed s -> trimmed (lower s).
Proof.
  intros [H0 H1]. split.
  - intros ch H. rewrite get_lower in H.
    destruct (String.get 0 s) as [c0|] eqn:E; [|done]. injection H as <-.
    rewrite is_space_lower_char. by apply H0.
  - intros ch H. rewrite get_lower, length_lower in H.
    destruct (String.get (String.length s - 1) s) as [c0|] eqn:E; [|done]. injection H as <-.
    rewrite is_space_lower_char. by apply H1.
Qed.

(** A tag-free raw field: [cleanHtml] only trims it. *)
Lemma cleanHtml_inner (s : string) :
  has_char "<" s = false -> inner_of s (strip (cleanHtml s)).
Proof.
  intros H. unfold cleanHtml. destruct (String.eqb s "") eqn:E.
  - apply String.eqb_eq in E. subst s. by exists "", "".
  - unfold sub_tags. rewrite (sub_tags_go_no_lt s H).
    apply (inner_trans _ (strip s)); apply inner_strip.
Qed.

(** C8 (amended): each text field of a normalized job is the raw field
    with every [<...>] tag replaced by a space and the ends trimmed, so no
    tag remains and no field starts or ends with whitespace; inside a
    field nothing else changes (a raw field without ['<'] is kept with
    only its leading and trailing whitespace removed, internal runs of
    whitespace included); title, location and description are
    lower-cased, the company keeps its case; [applyLink] is passed
    through unmodified. *)
Theorem normalizeJob_fields (t c l d a : string) (e : option string) (j : job) :
  normalizeJob t c l d a e = Some j ->
  title j = lower (strip (cleanHtml t)) /\
  company j = strip (cleanHtml c) /\
  location j = (if String.eqb l "" then "pakistan" else lower (strip (cleanHtml l))) /\
  description j = lower (strip (cleanHtml d)) /\
  applyLink j = a /\
  has_tag (title j) = false /\ has_tag (company j) = false /\
  has_tag (location j) = false /\ has_tag (description j) = false /\
  lower (title j) = title j /\ lower (location j) = location j /\
  lower (description j) = description j /\
  trimmed (title j) /\ trimmed (company j) /\ trimmed (location j) /\ trimmed (description j) /\
  (has_char "<" t = false -> inner_of (lower t) (title j)) /\
  (has_char "<" c = false -> inner_of c (company j)) /\
  (l <> "" -> has_char "<" l = false -> inner_of (lower l) (location j)) /\
  (has_char "<" d = false -> inner_of (lower d) (description j)) /\
  (forall x b y, has_char "<" x = false -> b <> "" -> has_char ">" b = false ->
     sub_tags (x +:+ String "<" (b +:+ String ">" y)) = x +:+ String " " (sub_tags y)).
Proof.
  unfold normalizeJob. destruct (String.eqb t "" || String.eqb c ""); [done|].
  intros H. injection H as <-. cbn [title company location description applyLink].
  assert (Hnt : forall s, has_tag (strip (cleanHtml s)) = false)
    by (intros s; apply has_tag_strip, cleanHtml_no_tag).
  assert (Htr : forall s, trimmed (strip (cleanHtml s))) by (intros s; apply trimmed_strip).
  split; [done|]. split; [done|].
  split; [by destruct (String.eqb l "")|]. split; [done|]. split; [done|].
  rewrite !has_tag_lower, !lower_idem.
  split; [apply Hnt|]. split; [apply Hnt|].
  split; [destruct (String.eqb l ""); [reflexivity|apply Hnt]|]. split; [apply Hnt|].
  do 3 (split; [done|]).
  split; [apply trimmed_lower, Htr|]. split; [apply Htr|].
  split.
  { destruct (String.eqb l ""); [|apply trimmed_lower, Htr].
    split; intros ch Hch; vm_compute in Hch; injection Hch as <-; reflexivity. }
  split; [apply trimmed_lower, Htr|].
  split; [intros Ht; by apply inner_lower, cleanHtml_inner|].
  split; [intros Hc; by apply cleanHtml_inner|].
  split.
  { intros Hl Hl'. apply String.eqb_neq in Hl. rewrite Hl.
    by apply inner_lower, cleanHtml_inner. }
  split; [intros Hd; by apply inner_lower, cleanHtml_inner|].
  intros x b y Hx Hb Hbg. unfold sub_tags.
  induction x as [|ch x IH].
  - simpl. by apply sub_tags_go_tag.
  - simpl in Hx. apply orb_false_iff in Hx as [Hch Hx].
    rewrite append_cons. simpl. rewrite Hch. by rewrite IH.
Qed.

Lemma normalizeJob_fields_witness :
  normalizeJob "<b>Junior</b>  Dev" "Acme   Corp" "" " React   and Node " "https://a/b" None
    = Some (mkJob "junior   dev" "Acme   Corp" "pakistan" "react   and node" "https://a/b" None
              "acme   corp-junior   dev") /\
  inner_of (lower " React   and Node ") "react   and node".
Proof.
  split; [reflexivity|].
  pose proof (normalizeJob_fields "<b>Junior</b>  Dev" "Acme   Corp" "" " React   and Node "
                "https://a/b" None _ eq_refl) as H.
  destruct H as (_ & _ & _ & _ & _ & _ & _ & _ & _ & _ & _ & _ & _ & _ & _ & _ & _ & _ & _ & Hd & _).
  exact (Hd eq_refl).
Defined.
